(** * Progressive tax engine: [calculateProgressiveTax]

    Shallow embedding of the TypeScript function [calculateProgressiveTax]
    (module [@/lib/taxEngine]) and proofs of the properties its
    specification lists.

    ** Number model

    A JavaScript [number] is modelled as an extended exact rational: a
    finite value is a canonical rational ([Qc], so equality is Leibniz
    equality), next to [+Infinity], [-Infinity] and [NaN], which follow
    the IEEE-754 rules JavaScript uses.  Finite arithmetic is exact: no
    rounding, no overflow to infinity, and the two zeros are identified
    (the function divides only by [100] and by a gross income already
    tested to be positive, so the sign of a zero is never observed).

    Binary64 arithmetic rounds, so the theorems keep to what rounding
    preserves: they compare numbers, take minima and maxima, and write
    sums, differences, products and quotients as the function computes
    them, in its order.  None regroups a sum, cancels a term or bounds a
    product by an exact product; where growth matters, the hypotheses
    keep every operand in a range where the rounded operations are
    monotone and cannot yield [NaN].

    A property that may be [undefined] at run time (or [null], which
    every operator of this function treats alike) is an [option].  The
    function is first modelled on inputs whose [brackets] is an array of
    brackets, where it always returns; [calculateProgressiveTax_call]
    then adds the inputs on which it throws.

    ** Around the engine

    Next to the engine the development covers its caller [calculateTax]
    of the tax calculator page, the monthly and per-category totals of
    the dashboard, and the totals and the CSV import of the transactions
    page.  Library functions these rely on ([parseFloat], [Date], string
    case conversion, the database) are taken as given: as the values they
    return, or as parameters of a section. *)

From Stdlib Require Import String Ascii.
From Stdlib Require Import QArith Qcanon Lqa Lia Bool List.
From Stdlib Require Import Permutation Sorted.
Import ListNotations.

Local Open Scope Qc_scope.

(** ** JavaScript numbers *)

Module JsNumber.

Inductive number : Type :=
| Fin (q : Qc)
| PInf
| NInf
| NaN.

Definition of_Z (z : Z) : number := Fin (Q2Qc (inject_Z z)).

Definition zero : number := Fin 0.
Definition hundred : number := of_Z 100.

(** Boolean order tests on finite values. *)
Definition Qcltb (a b : Qc) : bool := negb (Qle_bool b a).
Definition Qcleb (a b : Qc) : bool := Qle_bool a b.
Definition Qceqb (a b : Qc) : bool := Qeq_bool a b.

(** Unary minus. *)
Definition neg (a : number) : number :=
  match a with
  | Fin x => Fin (- x)
  | PInf => NInf
  | NInf => PInf
  | NaN => NaN
  end.

(** [a + b]. *)
Definition add (a b : number) : number :=
  match a, b with
  | NaN, _ | _, NaN => NaN
  | Fin x, Fin y => Fin (x + y)
  | PInf, NInf | NInf, PInf => NaN
  | PInf, _ | _, PInf => PInf
  | NInf, _ | _, NInf => NInf
  end.

(** [a - b]. *)
Definition sub (a b : number) : number := add a (neg b).

(** The infinity whose sign is the sign of the finite factor [x]; [NaN]
    for a zero factor. *)
Definition signed_inf (x : Qc) (positive : bool) : number :=
  if Qceqb x 0 then NaN
  else if Bool.eqb (Qcltb 0 x) positive then PInf else NInf.

(** [a * b]. *)
Definition mul (a b : number) : number :=
  match a, b with
  | NaN, _ | _, NaN => NaN
  | Fin x, Fin y => Fin (x * y)
  | Fin x, PInf | PInf, Fin x => signed_inf x true
  | Fin x, NInf | NInf, Fin x => signed_inf x false
  | PInf, PInf | NInf, NInf => PInf
  | PInf, NInf | NInf, PInf => NInf
  end.

(** [a / b]; a zero divisor counts as [+0]. *)
Definition div (a b : number) : number :=
  match a, b with
  | NaN, _ | _, NaN => NaN
  | Fin x, Fin y =>
      if Qceqb y 0 then signed_inf x true else Fin (x / y)
  | Fin _, PInf | Fin _, NInf => Fin 0
  | PInf, Fin y => if Qcltb y 0 then NInf else PInf
  | NInf, Fin y => if Qcltb y 0 then PInf else NInf
  | _, _ => NaN
  end.

(** [a < b]: false as soon as one side is [NaN]. *)
Definition lt (a b : number) : bool :=
  match a, b with
  | NaN, _ | _, NaN => false
  | Fin x, Fin y => Qcltb x y
  | NInf, NInf | PInf, _ | _, NInf => false
  | NInf, _ | _, PInf => true
  end.

(** [a > b]. *)
Definition gt (a b : number) : bool := lt b a.

(** [a <= b]: false as soon as one side is [NaN]. *)
Definition le (a b : number) : bool :=
  match a, b with
  | NaN, _ | _, NaN => false
  | Fin x, Fin y => Qcleb x y
  | NInf, _ | _, PInf => true
  | PInf, _ | _, NInf => false
  end.

(** [a >= b]. *)
Definition ge (a b : number) : bool := le b a.

(** [Math.min(a, b)]. *)
Definition min (a b : number) : number :=
  match a, b with
  | NaN, _ | _, NaN => NaN
  | _, _ => if lt b a then b else a
  end.

(** [Math.max(a, b)]. *)
Definition max (a b : number) : number :=
  match a, b with
  | NaN, _ | _, NaN => NaN
  | _, _ => if lt a b then b else a
  end.

(** [isFinite(a)]. *)
Definition isFinite (a : number) : bool :=
  match a with Fin _ => true | _ => false end.

(** Truthiness of a number: [0] and [NaN] are falsy. *)
Definition truthy (a : number) : bool :=
  match a with
  | Fin x => negb (Qceqb x 0)
  | PInf | NInf => true
  | NaN => false
  end.

(** [a || 0] on a number. *)
Definition or_zero (a : number) : number := if truthy a then a else zero.

(** [p || 0] on a property that may be [undefined]. *)
Definition prop_or_zero (p : option number) : number :=
  match p with
  | Some a => or_zero a
  | None => zero
  end.

(** [p ?? d]: the default only for [undefined] and [null]. *)
Definition nullish (p : option number) (d : number) : number :=
  match p with
  | Some a => a
  | None => d
  end.

(** [ToNumber] of a property: [undefined] converts to [NaN]. *)
Definition to_number (p : option number) : number :=
  match p with
  | Some a => a
  | None => NaN
  end.

End JsNumber.

Import JsNumber.

(** ** Array.prototype.sort

    [sort] is stable, and places [a] after [b] exactly when the
    comparator's result for them is positive; a [NaN] result counts as
    [+0].  It is modelled as the stable insertion sort below.  When the
    comparator is consistent (here: no bracket has a [NaN] minimum) every
    conforming engine returns this list; for an inconsistent comparator
    the standard leaves the order to the engine, and the model fixes the
    order of a stable insertion without look-ahead. *)

Section Sort.
Context {A : Type} (comparator : A -> A -> number).

Fixpoint sort_insert (x : A) (l : list A) : list A :=
  match l with
  | [] => [x]
  | y :: l' =>
      if gt (comparator x y) zero then y :: sort_insert x l' else x :: l
  end.

Definition array_sort (l : list A) : list A :=
  fold_right sort_insert [] l.
End Sort.

(** ** The tax engine *)

Record TaxBracket : Type := mkTaxBracket {
  income_bracket_min : number;
  income_bracket_max : option number;   (* null means no upper bound *)
  tax_rate : number                     (* percent *)
}.

Record TaxComputationInput : Type := mkInput {
  grossIncome : option number;
  additionalDeductions : option number;
  standardDeduction : option number;
  brackets : list TaxBracket;
  statutoryPensionRatePercent : option number;
  statutoryPensionAnnualCap : option number
}.

Record BreakdownEntry : Type := mkEntry {
  entry_income_bracket_min : number;
  entry_income_bracket_max : option number;
  entry_tax_rate : number;
  taxable_at_this_bracket : number;
  tax_at_this_bracket : number
}.

Record TaxComputationResult : Type := mkResult {
  deductions : number;
  taxableIncome : number;
  taxOwed : number;
  effectiveRate : number;
  marginalRate : number;
  statutoryPension : number;
  breakdown : list BreakdownEntry;
  deductionsCapped : bool;
  uncappedDeductions : number
}.

(** The three variables the bracket loop updates. *)
Record LoopState : Type := mkLoop {
  loop_taxOwed : number;
  loop_marginalRate : number;
  loop_breakdown : list BreakdownEntry
}.

Definition loop_init : LoopState := mkLoop zero zero [].

Definition bracket_comparator (a b : TaxBracket) : number :=
  sub (income_bracket_min a) (income_bracket_min b).

(** [taxableAtThisBracket] of the loop body. *)
Definition taxableAtThisBracket (taxable : number) (b : TaxBracket) : number :=
  let bracketMin := income_bracket_min b in
  let bracketMax := nullish (income_bracket_max b) PInf in
  min (sub taxable bracketMin) (sub bracketMax bracketMin).

(** One iteration of [for (const bracket of sorted)]. *)
Definition loop_body (taxable : number) (st : LoopState) (b : TaxBracket)
  : LoopState :=
  if gt taxable (income_bracket_min b) then
    let slice := taxableAtThisBracket taxable b in
    if gt slice zero then
      let tax := mul slice (div (tax_rate b) hundred) in
      mkLoop (add (loop_taxOwed st) tax)
             (tax_rate b)
             (loop_breakdown st ++
                [mkEntry (income_bracket_min b) (income_bracket_max b)
                         (tax_rate b) slice tax])
    else st
  else st.

Definition bracket_loop (taxable : number) (sorted : list TaxBracket)
  : LoopState :=
  fold_left (loop_body taxable) sorted loop_init.

Definition pension_of (input : TaxComputationInput) : number :=
  let pensionRate :=
    div (prop_or_zero (statutoryPensionRatePercent input)) hundred in
  let rawPension := mul (prop_or_zero (grossIncome input)) pensionRate in
  min (if isFinite rawPension then rawPension else zero)
      (nullish (statutoryPensionAnnualCap input) PInf).

Definition uncappedDeductions_of (input : TaxComputationInput) : number :=
  max zero
      (add (add (prop_or_zero (standardDeduction input))
                (prop_or_zero (additionalDeductions input)))
           (or_zero (pension_of input))).

Definition totalDeductions_of (input : TaxComputationInput) : number :=
  min (prop_or_zero (grossIncome input)) (uncappedDeductions_of input).

Definition taxableIncome_of (input : TaxComputationInput) : number :=
  max zero (sub (prop_or_zero (grossIncome input)) (totalDeductions_of input)).

Definition sorted_brackets (input : TaxComputationInput) : list TaxBracket :=
  array_sort bracket_comparator (brackets input).

Definition calculateProgressiveTax (input : TaxComputationInput)
  : TaxComputationResult :=
  let pension := pension_of input in
  let uncapped := uncappedDeductions_of input in
  let totalDeductions := totalDeductions_of input in
  let taxable := taxableIncome_of input in
  let st := bracket_loop taxable (sorted_brackets input) in
  let taxOwed := loop_taxOwed st in
  let effectiveRate :=
    if gt (to_number (grossIncome input)) zero
    then mul (div taxOwed (to_number (grossIncome input))) hundred
    else zero in
  mkResult totalDeductions taxable taxOwed effectiveRate
           (loop_marginalRate st) (or_zero pension) (loop_breakdown st)
           (lt totalDeductions uncapped) uncapped.

(** The sum of the breakdown's taxes, as [reduce((s, e) => s + e.tax, 0)]. *)
Definition sum_tax (l : list BreakdownEntry) : number :=
  fold_left (fun s e => add s (tax_at_this_bracket e)) l zero.

(** Whether the loop records a slice for bracket [b]. *)
Definition touched (taxable : number) (b : TaxBracket) : bool :=
  gt taxable (income_bracket_min b)
  && gt (taxableAtThisBracket taxable b) zero.

(** The breakdown entry the loop pushes for a touched bracket. *)
Definition entry_of (taxable : number) (b : TaxBracket) : BreakdownEntry :=
  let slice := taxableAtThisBracket taxable b in
  mkEntry (income_bracket_min b) (income_bracket_max b) (tax_rate b)
          slice (mul slice (div (tax_rate b) hundred)).

(** Whether bracket [b] receives a strictly positive slice of the
    taxable income of [input]: [taxable_at_this_bracket > 0]. *)
Definition received_slice (input : TaxComputationInput) (b : TaxBracket)
  : bool :=
  gt (taxableAtThisBracket (taxableIncome_of input) b) zero.

(** Field updates of an input. *)
Definition with_grossIncome (v : option number) (i : TaxComputationInput) :=
  mkInput v (additionalDeductions i) (standardDeduction i) (brackets i)
          (statutoryPensionRatePercent i) (statutoryPensionAnnualCap i).
Definition with_additionalDeductions (v : option number)
  (i : TaxComputationInput) :=
  mkInput (grossIncome i) v (standardDeduction i) (brackets i)
          (statutoryPensionRatePercent i) (statutoryPensionAnnualCap i).
Definition with_standardDeduction (v : option number)
  (i : TaxComputationInput) :=
  mkInput (grossIncome i) (additionalDeductions i) v (brackets i)
          (statutoryPensionRatePercent i) (statutoryPensionAnnualCap i).
Definition with_statutoryPensionRatePercent (v : option number)
  (i : TaxComputationInput) :=
  mkInput (grossIncome i) (additionalDeductions i) (standardDeduction i)
          (brackets i) v (statutoryPensionAnnualCap i).
Definition with_brackets (bs : list TaxBracket) (i : TaxComputationInput) :=
  mkInput (grossIncome i) (additionalDeductions i) (standardDeduction i)
          bs (statutoryPensionRatePercent i) (statutoryPensionAnnualCap i).

(** A field that is absent or [NaN]. *)
Definition missing (v : option number) : Prop := v = None \/ v = Some NaN.


(** A field that is not an infinity: absent, [NaN] or finite. *)
Definition not_infinite (v : option number) : Prop :=
  v <> Some PInf /\ v <> Some NInf.

(** ** The call at run time

    The types of TypeScript are erased at run time: like the numeric
    fields, [brackets] and each element of it may then be absent
    ([undefined] or [null]).  Spreading an absent [brackets] throws a
    [TypeError], and so does reading [income_bracket_min] of an absent
    element, in the comparator of the sort or in the loop; nothing else in
    the function throws. *)








(** ** Concrete inputs used by examples *)

Definition bracket (lo : Z) (hi : option Z) (rate : Z) : TaxBracket :=
  mkTaxBracket (of_Z lo) (option_map of_Z hi) (of_Z rate).

Definition two_brackets : list TaxBracket :=
  [bracket 0 (Some 10000%Z) 10; bracket 10000 None 20].

Definition two_brackets_unordered : list TaxBracket :=
  [bracket 10000 None 20; bracket 0 (Some 10000%Z) 10].

(** Gross income [g] over [bs]; no deductions, pension rate 0, no cap. *)
Definition plain_input (g : Z) (bs : list TaxBracket) : TaxComputationInput :=
  mkInput (Some (of_Z g)) (Some zero) (Some zero) bs (Some zero) None.

(** ** Auxiliary definitions of the proofs *)

Definition key_le (a b : TaxBracket) : Prop :=
  le (income_bracket_min a) (income_bracket_min b) = true.

Definition key_lt (a b : TaxBracket) : Prop :=
  lt (income_bracket_min a) (income_bracket_min b) = true.

Definition key_number (b : TaxBracket) : Prop := income_bracket_min b <> NaN.

(** The brackets that receive a slice, in sorted order. *)
Definition sliced_brackets (input : TaxComputationInput) : list TaxBracket :=
  filter (received_slice input) (sorted_brackets input).

(** The tax owed, as the loop accumulates it. *)
Definition owed_step (taxable : number) (s : number) (b : TaxBracket)
  : number :=
  if touched taxable b
  then add s (mul (taxableAtThisBracket taxable b)
                  (div (tax_rate b) hundred))
  else s.

(** A bracket the monotonicity argument accepts: its start is not
    [-Infinity] and its rate is finite and not negative. *)
Definition bracket_ok (b : TaxBracket) : Prop :=
  income_bracket_min b <> NInf
  /\ exists r, tax_rate b = Fin r /\ 0 <= r.

(** A bracket of an ordinary table: its start and its rate are finite and
    not negative. *)
Definition bracket_plain (b : TaxBracket) : Prop :=
  exists m r, income_bracket_min b = Fin m /\ 0 <= m
              /\ tax_rate b = Fin r /\ 0 <= r.

Definition finite_part (a : number) : Qc :=
  match a with Fin x => x | _ => 0 end.

(** The slice of a finite taxable income [t] that bracket [b] taxes. *)
Definition slice_of (t : Qc) (b : TaxBracket) : Qc :=
  if touched (Fin t) b
  then finite_part (taxableAtThisBracket (Fin t) b)
  else 0.

Definition hundred_qc : Qc := Q2Qc (inject_Z 100).

(** A bracket table without gaps or overlaps that starts at [m]: every
    bracket ends where the next one starts and the last one has no upper
    bound. *)
Inductive contiguous_from : Qc -> list TaxBracket -> Prop :=
| contiguous_top (m : Qc) (r : number) :
    contiguous_from m [mkTaxBracket (Fin m) None r]
| contiguous_step (m hi : Qc) (r : number) (l : list TaxBracket) :
    m < hi -> contiguous_from hi l ->
    contiguous_from m (mkTaxBracket (Fin m) (Some (Fin hi)) r :: l).

(** Whether the finite taxable income [t] falls into bracket [b]: above
    its minimum and not above its maximum. *)
Definition holds_income (t : Qc) (b : TaxBracket) : Prop :=
  exists m, income_bracket_min b = Fin m /\ m < t
            /\ (income_bracket_max b = None
                \/ exists hi, income_bracket_max b = Some (Fin hi)
                              /\ t <= hi).

(** ** The tax calculator page: [calculateTax]

    The page reads the two amounts of its form with [parseFloat]; the
    model starts from the numbers [parseFloat] returns. *)

(** A row of [tax_rules], with the fields the page reads. *)
Record TaxRule : Type := mkTaxRule {
  rule_income_bracket_min : number;
  rule_income_bracket_max : option number;
  rule_tax_rate : number;
  standard_deduction : number
}.

(** The rules are handed to the engine as its brackets. *)
Definition rule_as_bracket (r : TaxRule) : TaxBracket :=
  mkTaxBracket (rule_income_bracket_min r) (rule_income_bracket_max r)
               (rule_tax_rate r).

Record TaxCalculation : Type := mkCalculation {
  calc_grossIncome : number;
  calc_deductions : number;
  calc_taxableIncome : number;
  calc_taxOwed : number;
  calc_effectiveRate : number;
  calc_marginalRate : number;
  calc_statutoryPension : number;
  calc_standardDeduction : number;
  calc_additionalDeductions : number;
  calc_deductionsCapped : bool;
  calc_uncappedDeductions : number
}.

(** [taxRules[0]?.standard_deduction || 13850]. *)
Definition standardDeduction_of_rules (taxRules : list TaxRule) : number :=
  match taxRules with
  | r :: _ =>
      if truthy (standard_deduction r) then standard_deduction r
      else of_Z 13850
  | [] => of_Z 13850
  end.

(** The input [calculateTax] hands to the engine. *)
Definition calculateTax_input (parsedGross parsedAdditional : number)
  (taxRules : list TaxRule) : TaxComputationInput :=
  mkInput (Some (or_zero parsedGross))
          (Some (or_zero parsedAdditional))
          (Some (standardDeduction_of_rules taxRules))
          (map rule_as_bracket taxRules)
          (Some (of_Z 5))
          None.

(** The calculation [calculateTax] stores, from the values of
    [parseFloat(formData.grossIncome)] and
    [parseFloat(formData.additionalDeductions)] and the fetched rules. *)
Definition calculateTax (parsedGross parsedAdditional : number)
  (taxRules : list TaxRule) : TaxCalculation :=
  let grossIncome := or_zero parsedGross in
  let additionalDeductions := or_zero parsedAdditional in
  let standardDeduction := standardDeduction_of_rules taxRules in
  let result :=
    calculateProgressiveTax
      (calculateTax_input parsedGross parsedAdditional taxRules) in
  mkCalculation grossIncome (deductions result) (taxableIncome result)
                (taxOwed result) (effectiveRate result)
                (marginalRate result) (statutoryPension result)
                standardDeduction additionalDeductions
                (deductionsCapped result) (uncappedDeductions result).

(** ** The dashboard: monthly and category totals

    A transaction's month is what [new Date(t.transaction_date).getMonth()]
    returns: [None] stands for the [NaN] of an invalid date. *)

Inductive TransactionType : Type := income | expense.

Record DashboardTransaction : Type := mkDashboardTransaction {
  dash_amount : number;
  dash_type : TransactionType;
  dash_category : string;
  dash_month : option nat
}.

Record MonthEntry : Type := mkMonthEntry {
  month : string;
  month_income : number;
  month_expenses : number
}.

Definition MONTH_LABELS : list string :=
  ["Jan"; "Feb"; "Mar"; "Apr"; "May"; "Jun";
   "Jul"; "Aug"; "Sep"; "Oct"; "Nov"; "Dec"]%string.

(** A [Map] or a plain object with string keys, in insertion order. *)
Definition StringMap (V : Type) : Type := list (string * V).

(** [map.get(key)]. *)
Fixpoint map_get {V : Type} (key : string) (m : StringMap V) : option V :=
  match m with
  | [] => None
  | (k, v) :: m' => if String.eqb k key then Some v else map_get key m'
  end.

(** [map.set(key, v)]: a known key keeps its place, a new one goes last. *)
Fixpoint map_set {V : Type} (key : string) (v : V) (m : StringMap V)
  : StringMap V :=
  match m with
  | [] => [(key, v)]
  | (k, w) :: m' =>
      if String.eqb k key then (k, v) :: m'
      else (k, w) :: map_set key v m'
  end.

(** [Array.from(map.values())]. *)
Definition map_values {V : Type} (m : StringMap V) : list V := map snd m.

(** The map of the twelve months, each at 0. *)
Definition months_init : StringMap MonthEntry :=
  fold_left (fun m label => map_set label (mkMonthEntry label zero zero) m)
            MONTH_LABELS [].

(** One step of [transactions.forEach]: [None] when
    [map.get(label)!] is [undefined] and reading [entry.income] throws. *)
Definition month_step (m : StringMap MonthEntry) (t : DashboardTransaction)
  : option (StringMap MonthEntry) :=
  match dash_month t with
  | None => None
  | Some i =>
      match nth_error MONTH_LABELS i with
      | None => None
      | Some label =>
          match map_get label m with
          | None => None
          | Some entry =>
              Some (map_set label
                      (match dash_type t with
                       | income =>
                           mkMonthEntry (month entry)
                             (add (month_income entry) (dash_amount t))
                             (month_expenses entry)
                       | expense =>
                           mkMonthEntry (month entry)
                             (month_income entry)
                             (add (month_expenses entry) (dash_amount t))
                       end) m)
          end
      end
  end.

Fixpoint months_forEach (m : StringMap MonthEntry)
  (l : list DashboardTransaction) : option (StringMap MonthEntry) :=
  match l with
  | [] => Some m
  | t :: l' =>
      match month_step m t with
      | Some m' => months_forEach m' l'
      | None => None
      end
  end.

(** [monthlyData]; [None] when building it throws. *)
Definition monthlyData (transactions : list DashboardTransaction)
  : option (list MonthEntry) :=
  option_map map_values (months_forEach months_init transactions).

(** [list.reduce((sum, x) => sum + x, 0)]. *)
Definition sum_numbers (l : list number) : number :=
  fold_left add l zero.

Definition dashboard_totalIncome (rows : list MonthEntry) : number :=
  sum_numbers (map month_income rows).

Definition dashboard_totalExpenses (rows : list MonthEntry) : number :=
  sum_numbers (map month_expenses rows).

Definition dashboard_netProfit (rows : list MonthEntry) : number :=
  sub (dashboard_totalIncome rows) (dashboard_totalExpenses rows).

(** The reducer of [expenseCategoryData]:
    [acc[t.category] = (acc[t.category] || 0) + t.amount]. *)
Definition category_step (acc : StringMap number) (t : DashboardTransaction)
  : StringMap number :=
  map_set (dash_category t)
          (add (prop_or_zero (map_get (dash_category t) acc))
               (dash_amount t))
          acc.

Definition is_expense (t : DashboardTransaction) : bool :=
  match dash_type t with expense => true | income => false end.

Definition is_income (t : DashboardTransaction) : bool :=
  match dash_type t with income => true | expense => false end.

(** [Object.entries] of the reduced object: the categories are names of
    the [transaction_category] enum, none of them an array index, so the
    entries come in insertion order. *)
Definition expenseCategoryData (transactions : list DashboardTransaction)
  : list (string * number) :=
  fold_left category_step (filter is_expense transactions) [].

(** A transaction whose date gives one of the twelve months. *)
Definition valid_month (t : DashboardTransaction) : Prop :=
  exists i, dash_month t = Some i /\ (i < 12)%nat.

(** Three transactions used by examples. *)
Definition example_transactions : list DashboardTransaction :=
  [mkDashboardTransaction (of_Z 10) income "freelance_income" (Some 3%nat);
   mkDashboardTransaction (of_Z 4) expense "travel" (Some 3%nat);
   mkDashboardTransaction (of_Z 6) expense "travel" (Some 11%nat)].

(** What the loop keeps of the map of months: its keys are the twelve
    labels in calendar order, and each entry carries its key. *)
Definition months_ok (m : StringMap MonthEntry) : Prop :=
  map fst m = MONTH_LABELS /\ Forall (fun p => month (snd p) = fst p) m.

(** Whether a transaction's date falls into month [i] (0 for January). *)
Definition in_month (i : nat) (t : DashboardTransaction) : bool :=
  match dash_month t with
  | Some j => Nat.eqb j i
  | None => false
  end.

(** The amounts of the transactions of one kind in month [i], added up
    from 0 in the order of the transactions. *)
Definition month_sum (kind : DashboardTransaction -> bool) (i : nat)
  (l : list DashboardTransaction) : number :=
  sum_numbers (map dash_amount (filter (fun t => kind t && in_month i t) l)).

(** The row of month [i] after the transactions [l]. *)
Definition month_row (l : list DashboardTransaction) (i : nat) : MonthEntry :=
  mkMonthEntry (nth i MONTH_LABELS ""%string)
               (month_sum is_income i l) (month_sum is_expense i l).

(** The map of months after the transactions [l]. *)
Definition months_of (l : list DashboardTransaction) : StringMap MonthEntry :=
  map (fun i => (nth i MONTH_LABELS ""%string, month_row l i)) (seq 0 12).

(** The amounts of the expenses of category [c], added up from 0 in the
    order of the transactions. *)
Definition category_sum (c : string) (l : list DashboardTransaction)
  : number :=
  sum_numbers
    (map dash_amount
         (filter (fun t => is_expense t && String.eqb (dash_category t) c) l)).

(** ** The transactions page: totals and CSV import *)

Record Transaction : Type := mkTransaction {
  transaction_id : string;
  amount : number;
  description : string;
  category : string;
  type : TransactionType;
  transaction_date : string;
  is_tax_deductible : bool
}.

Definition type_is_income (t : Transaction) : bool :=
  match type t with income => true | expense => false end.

Definition type_is_expense (t : Transaction) : bool :=
  match type t with expense => true | income => false end.

Definition totalIncome (transactions : list Transaction) : number :=
  sum_numbers (map amount (filter type_is_income transactions)).

Definition totalExpenses (transactions : list Transaction) : number :=
  sum_numbers (map amount (filter type_is_expense transactions)).

Definition taxDeductibleExpenses (transactions : list Transaction) : number :=
  sum_numbers
    (map amount
         (filter (fun t => type_is_expense t && is_tax_deductible t)
                 transactions)).

(** A row of the parsed CSV file: with [header: true] every field is a
    string, and a column the file lacks is [undefined]. *)
Record CsvRow : Type := mkCsvRow {
  csv_amount : option string;
  csv_Amount : option string;
  csv_type : option string;
  csv_Type : option string;
  csv_category : option string;
  csv_Category : option string;
  csv_transaction_date : option string;
  csv_date : option string;
  csv_Date : option string;
  csv_description : option string;
  csv_Description : option string;
  csv_is_tax_deductible : option string;
  csv_tax_deductible : option string;
  csv_Deductible : option string
}.

(** The object a row is mapped to. *)
Record ImportedRow : Type := mkImportedRow {
  imported_amount : number;
  imported_description : string;
  imported_category : string;
  imported_type : string;
  imported_transaction_date : string;
  imported_is_tax_deductible : bool;
  imported_user_id : option string
}.

(** What the callback of [rows.map] does with a row: it returns [null],
    returns an object, or throws. *)
Inductive RowResult : Type :=
| Rejected
| Accepted (r : ImportedRow)
| Threw.

Inductive ImportOutcome : Type :=
| NoValidRows
| ImportFailed
| Imported (rows : list ImportedRow).

(** [p ?? d] on strings. *)
Definition nullish_string (p : option string) (d : string) : string :=
  match p with
  | Some s => s
  | None => d
  end.

(** [s.replace(/,/g, '')]. *)
Fixpoint remove_commas (s : string) : string :=
  match s with
  | EmptyString => EmptyString
  | String c s' =>
      if Ascii.eqb c ","%char then remove_commas s'
      else String c (remove_commas s')
  end.

(** Truthiness of a string: only the empty string is falsy. *)
Definition nonempty (s : string) : bool := negb (String.eqb s "").

(** The date string of a row:
    [row.transaction_date ?? row.date ?? row.Date ?? '']. *)
Definition row_date (row : CsvRow) : string :=
  nullish_string (csv_transaction_date row)
    (nullish_string (csv_date row) (nullish_string (csv_Date row) "")).

Section CsvImport.
(** The library functions the import relies on: [parseFloat],
    [String.prototype.toLowerCase], the date conversion
    [new Date(date).toISOString().split('T')[0]], which throws on an
    invalid date ([None]), the signed-in user's id and whether the
    insertion into [transactions] reports an error. *)
Variable parseFloat : string -> number.
Variable toLowerCase : string -> string.
Variable isoDate : string -> option string.
Variable user_id : option string.
Variable insert_error : list ImportedRow -> bool.

(** The test that makes the callback return [null]. *)
Definition row_rejected (row : CsvRow) : bool :=
  let rawAmount :=
    remove_commas (nullish_string (csv_amount row)
                     (nullish_string (csv_Amount row) "")) in
  let parsedAmount := parseFloat rawAmount in
  let type :=
    toLowerCase (nullish_string (csv_type row)
                   (nullish_string (csv_Type row) "")) in
  let date :=
    nullish_string (csv_transaction_date row)
      (nullish_string (csv_date row) (nullish_string (csv_Date row) "")) in
  let description :=
    nullish_string (csv_description row)
      (nullish_string (csv_Description row) "") in
  negb (truthy parsedAmount) || negb (nonempty description)
  || negb (nonempty date)
  || (negb (String.eqb type "income") && negb (String.eqb type "expense")).

Definition mapRow (row : CsvRow) : RowResult :=
  let rawAmount :=
    remove_commas (nullish_string (csv_amount row)
                     (nullish_string (csv_Amount row) "")) in
  let parsedAmount := parseFloat rawAmount in
  let type :=
    toLowerCase (nullish_string (csv_type row)
                   (nullish_string (csv_Type row) "")) in
  let category :=
    toLowerCase (nullish_string (csv_category row)
                   (nullish_string (csv_Category row) "")) in
  let date :=
    nullish_string (csv_transaction_date row)
      (nullish_string (csv_date row) (nullish_string (csv_Date row) "")) in
  let description :=
    nullish_string (csv_description row)
      (nullish_string (csv_Description row) "") in
  let deductibleRaw :=
    toLowerCase
      (nullish_string (csv_is_tax_deductible row)
         (nullish_string (csv_tax_deductible row)
            (nullish_string (csv_Deductible row) ""))) in
  let is_tax_deductible :=
    String.eqb deductibleRaw "true" || String.eqb deductibleRaw "yes"
    || String.eqb deductibleRaw "1" in
  if row_rejected row then Rejected
  else
    match isoDate date with
    | None => Threw
    | Some day =>
        Accepted
          (mkImportedRow parsedAmount description
             (if nonempty category then category else "other_expense")
             type day is_tax_deductible user_id)
    end.

(** [rows.map(...)]: [None] as soon as the callback throws. *)
Fixpoint map_rows (rows : list CsvRow) : option (list (option ImportedRow)) :=
  match rows with
  | [] => Some []
  | row :: rows' =>
      match mapRow row with
      | Threw => None
      | Rejected => option_map (cons None) (map_rows rows')
      | Accepted r => option_map (cons (Some r)) (map_rows rows')
      end
  end.

(** [.filter(Boolean)]. *)
Fixpoint filter_Boolean (l : list (option ImportedRow)) : list ImportedRow :=
  match l with
  | [] => []
  | Some r :: l' => r :: filter_Boolean l'
  | None :: l' => filter_Boolean l'
  end.

(** The [complete] callback of [handleCsvImport], from the parsed rows to
    what the user is told. *)
Definition handleCsvImport (rows : list CsvRow) : ImportOutcome :=
  match map_rows rows with
  | None => ImportFailed
  | Some results =>
      let mapped := filter_Boolean results in
      match mapped with
      | [] => NoValidRows
      | _ :: _ => if insert_error mapped then ImportFailed
                  else Imported mapped
      end
  end.

End CsvImport.

(** What the callback guarantees of a row it accepts. *)
Definition row_valid (r : ImportedRow) : Prop :=
  truthy (imported_amount r) = true
  /\ imported_description r <> ""%string
  /\ (imported_type r = "income"%string
      \/ imported_type r = "expense"%string)
  /\ imported_category r <> ""%string.

(** Stand-ins for the library functions, for the examples: a
    [parseFloat] that reads ["1200"] only, and a date conversion that
    accepts ["2024-01-02"] only. *)
Definition example_parseFloat (s : string) : number :=
  if String.eqb s "1200" then of_Z 1200 else NaN.

Definition example_isoDate (s : string) : option string :=
  if String.eqb s "2024-01-02" then Some s else None.

(** A row with the amount ["1,200"], an income, dated [date]. *)
Definition example_row (date : string) : CsvRow :=
  mkCsvRow (Some "1,200"%string) None (Some "income"%string) None
           None None None (Some date) None
           (Some "invoice"%string) None None None None.

(** ** Order and equality on finite values *)

Lemma Qcltb_lt (a b : Qc) : Qcltb a b = true <-> a < b.
Proof.
  unfold Qcltb, Qclt. rewrite negb_true_iff.
  split; intro H.
  - apply Qnot_le_lt. intro Hle. apply Qle_bool_iff in Hle. congruence.
  - destruct (Qle_bool b a) eqn:E; [|reflexivity].
    apply Qle_bool_iff in E. exfalso. eapply Qlt_not_le; eauto.
Qed.

Lemma Qcltb_ge (a b : Qc) : Qcltb a b = false <-> b <= a.
Proof.
  unfold Qcltb, Qcle. rewrite negb_false_iff. apply Qle_bool_iff.
Qed.

Lemma Qcleb_le (a b : Qc) : Qcleb a b = true <-> a <= b.
Proof. unfold Qcleb, Qcle. apply Qle_bool_iff. Qed.

Lemma Qcleb_gt (a b : Qc) : Qcleb a b = false <-> b < a.
Proof.
  unfold Qcleb, Qclt. split; intro H.
  - apply Qnot_le_lt. intro Hle. apply Qle_bool_iff in Hle. congruence.
  - destruct (Qle_bool a b) eqn:E; [|reflexivity].
    apply Qle_bool_iff in E. exfalso. eapply Qlt_not_le; eauto.
Qed.

Lemma Qceqb_eq (a b : Qc) : Qceqb a b = true <-> a = b.
Proof.
  unfold Qceqb. rewrite Qeq_bool_iff. split.
  - apply Qc_is_canon.
  - intros ->. reflexivity.
Qed.

Lemma Qceqb_neq (a b : Qc) : Qceqb a b = false <-> a <> b.
Proof.
  rewrite <- Qceqb_eq. destruct (Qceqb a b); split; congruence.
Qed.

(** Facts on [Qc] are moved to [Q], where [lra] decides them. *)
Lemma Qc_eq_Qeq (a b : Qc) : a = b <-> (this a == this b)%Q.
Proof. split; [intros ->; reflexivity | apply Qc_is_canon]. Qed.

Lemma Qc_neq_Qeq (a b : Qc) : a <> b <-> ~ (this a == this b)%Q.
Proof. rewrite Qc_eq_Qeq. reflexivity. Qed.

Lemma this_plus (a b : Qc) : (this (a + b) == this a + this b)%Q.
Proof. apply Qred_correct. Qed.

Lemma this_mult (a b : Qc) : (this (a * b) == this a * this b)%Q.
Proof. apply Qred_correct. Qed.

Lemma this_opp (a : Qc) : (this (- a) == - this a)%Q.
Proof. apply Qred_correct. Qed.

Lemma this_minus (a b : Qc) : (this (a - b) == this a - this b)%Q.
Proof. unfold Qcminus. rewrite this_plus, this_opp. reflexivity. Qed.

Lemma this_Q2Qc (q : Q) : (this (Q2Qc q) == q)%Q.
Proof. apply Qred_correct. Qed.

Lemma this_inv (a : Qc) : (this (/ a) == / this a)%Q.
Proof. apply Qred_correct. Qed.

Lemma this_div (a b : Qc) : (this (a / b) == this a / this b)%Q.
Proof. unfold Qcdiv. rewrite this_mult, this_inv. reflexivity. Qed.

Ltac qc_bools :=
  repeat match goal with
  | H : Qcltb _ _ = true |- _ => apply Qcltb_lt in H
  | H : Qcltb _ _ = false |- _ => apply Qcltb_ge in H
  | H : Qcleb _ _ = true |- _ => apply Qcleb_le in H
  | H : Qcleb _ _ = false |- _ => apply Qcleb_gt in H
  | H : Qceqb _ _ = true |- _ => apply Qceqb_eq in H
  | H : Qceqb _ _ = false |- _ => apply Qceqb_neq in H
  | |- Qcltb _ _ = true => apply Qcltb_lt
  | |- Qcltb _ _ = false => apply Qcltb_ge
  | |- Qcleb _ _ = true => apply Qcleb_le
  | |- Qcleb _ _ = false => apply Qcleb_gt
  | |- Qceqb _ _ = true => apply Qceqb_eq
  | |- Qceqb _ _ = false => apply Qceqb_neq
  end.

Ltac qc_to_q :=
  qc_bools;
  repeat match goal with
  | H : @eq Qc _ _ |- _ => apply Qc_eq_Qeq in H
  | H : ~ @eq Qc _ _ |- _ => apply Qc_neq_Qeq in H
  | |- @eq Qc _ _ => apply Qc_eq_Qeq
  | |- ~ @eq Qc _ _ => apply Qc_neq_Qeq
  | |- Fin _ = Fin _ => apply f_equal
  end;
  unfold Qcle, Qclt in *;
  repeat match goal with
  | H : context [this (_ + _)] |- _ => rewrite this_plus in H
  | H : context [this (_ - _)] |- _ => rewrite this_minus in H
  | H : context [this (_ * _)] |- _ => rewrite this_mult in H
  | H : context [this (- _)] |- _ => rewrite this_opp in H
  | H : context [this (_ / _)] |- _ => rewrite this_div in H
  | H : context [this (Q2Qc _)] |- _ => rewrite this_Q2Qc in H
  | |- context [this (_ + _)] => rewrite this_plus
  | |- context [this (_ - _)] => rewrite this_minus
  | |- context [this (_ * _)] => rewrite this_mult
  | |- context [this (- _)] => rewrite this_opp
  | |- context [this (_ / _)] => rewrite this_div
  | |- context [this (Q2Qc _)] => rewrite this_Q2Qc
  end.

Ltac num_cases :=
  repeat (match goal with
          | |- context [if Qcltb ?a ?b then _ else _] =>
              destruct (Qcltb a b) eqn:?
          | |- context [if Qceqb ?a ?b then _ else _] =>
              destruct (Qceqb a b) eqn:?
          | |- context [if ?c then _ else _] => destruct c eqn:?
          end; simpl).

Ltac qc_lra := qc_to_q; unfold inject_Z, Qdiv in *; simpl in *; lra.

(** ** Facts on JavaScript numbers *)

Lemma or_zero_Fin (x : Qc) : or_zero (Fin x) = Fin x.
Proof.
  unfold or_zero, truthy, zero.
  destruct (Qceqb x 0) eqn:E; simpl; [|reflexivity].
  apply Qceqb_eq in E. now subst.
Qed.

Lemma or_zero_not_nan (a : number) : or_zero a <> NaN.
Proof. destruct a; try discriminate. rewrite or_zero_Fin. discriminate. Qed.

Lemma prop_or_zero_not_nan (v : option number) : prop_or_zero v <> NaN.
Proof. destruct v; [apply or_zero_not_nan | discriminate]. Qed.

Lemma prop_or_zero_missing (v : option number) :
  missing v -> prop_or_zero v = zero.
Proof. intros [-> | ->]; reflexivity. Qed.

Lemma prop_or_zero_present (a : number) :
  a <> NaN -> prop_or_zero (Some a) = a.
Proof.
  destruct a; simpl; try reflexivity; [|congruence].
  intros _. apply or_zero_Fin.
Qed.

Lemma prop_or_zero_not_infinite (v : option number) :
  not_infinite v -> exists x, prop_or_zero v = Fin x.
Proof.
  intros [Hp Hn]. destruct v as [[x | | |]|]; try congruence.
  - exists x. apply or_zero_Fin.
  - exists 0. reflexivity.
  - exists 0. reflexivity.
Qed.

Lemma lt_irrefl (a : number) : lt a a = false.
Proof. destruct a; simpl; try reflexivity. qc_bools. apply Qcle_refl. Qed.

Lemma lt_asym (a b : number) : lt a b = true -> lt b a = false.
Proof.
  destruct a, b; simpl; try reflexivity; try discriminate.
  intros H. qc_lra.
Qed.

Lemma lt_trans (a b c : number) :
  lt a b = true -> lt b c = true -> lt a c = true.
Proof.
  destruct a, b, c; simpl; try reflexivity; try discriminate.
  intros H1 H2. qc_lra.
Qed.

(** On numbers other than [NaN], [<=] is the negation of [>]. *)
Lemma le_not_gt (a b : number) :
  a <> NaN -> b <> NaN -> le a b = negb (lt b a).
Proof.
  destruct a, b; simpl; try reflexivity; try congruence.
  intros _ _. unfold Qcleb, Qcltb. now rewrite negb_involutive.
Qed.

Lemma le_refl (a : number) : a <> NaN -> le a a = true.
Proof. intros H. rewrite le_not_gt, lt_irrefl by assumption. reflexivity. Qed.

Lemma le_antisym (a b : number) :
  le a b = true -> le b a = true -> a = b.
Proof.
  destruct a, b; simpl; try reflexivity; try discriminate.
  intros H1 H2. qc_lra.
Qed.

Lemma lt_total (a b : number) :
  a <> NaN -> b <> NaN -> a <> b -> lt a b = true \/ lt b a = true.
Proof.
  destruct a as [x| | |], b as [y| | |]; simpl; intros Ha Hb Hab;
    try congruence; auto.
  destruct (Qc_dec x y) as [[H | H] | H].
  - left. now apply Qcltb_lt.
  - right. now apply Qcltb_lt.
  - subst. congruence.
Qed.

(** [Math.min(a, b) < b] exactly when [a < b]. *)
Lemma lt_min_l (a b : number) : lt (min a b) b = lt a b.
Proof.
  destruct a as [x| | |], b as [y| | |]; simpl; try reflexivity.
  - destruct (Qcltb y x) eqn:E; simpl; [|reflexivity].
    destruct (Qcltb x y) eqn:E2; qc_lra.
  - apply (lt_irrefl (Fin y)).
Qed.

(** The sort comparator [a - b] is positive exactly when [b < a]. *)
Lemma gt_sub_zero (a b : number) : gt (sub a b) zero = lt b a.
Proof.
  unfold gt, sub, zero.
  destruct a as [x| | |], b as [y| | |]; simpl; try reflexivity.
  destruct (Qcltb y x) eqn:E; qc_lra.
Qed.

Lemma isFinite_signed_inf (x : Qc) (s : bool) :
  isFinite (signed_inf x s) = false.
Proof.
  unfold signed_inf.
  destruct (Qceqb x 0); [reflexivity|].
  destruct (Bool.eqb (Qcltb 0 x) s); reflexivity.
Qed.

Lemma max_zero_cases (a : number) :
  a = NaN /\ max zero a = NaN
  \/ a <> NaN /\ le zero (max zero a) = true /\ max zero a <> NaN.
Proof.
  destruct a as [x| | |]; [right | right | right | left];
    try (simpl; repeat split; discriminate).
  unfold max, zero. simpl.
  destruct (Qcltb 0 x) eqn:E; simpl; repeat split; try discriminate; qc_lra.
Qed.

(** ** The bracket loop *)

Lemma loop_body_touched (taxable : number) (st : LoopState) (b : TaxBracket) :
  loop_body taxable st b =
  if touched taxable b then
    mkLoop (add (loop_taxOwed st) (tax_at_this_bracket (entry_of taxable b)))
           (tax_rate b)
           (loop_breakdown st ++ [entry_of taxable b])
  else st.
Proof.
  unfold loop_body, touched, entry_of.
  destruct (gt taxable (income_bracket_min b)); simpl; [|reflexivity].
  destruct (gt (taxableAtThisBracket taxable b) zero); reflexivity.
Qed.

Lemma last_cons_default {A : Type} (l : list A) (x d : A) :
  last (x :: l) d = last l x.
Proof.
  revert x d. induction l as [|y l IH]; intros x d; [reflexivity|].
  change (last (x :: y :: l) d) with (last (y :: l) d).
  rewrite (IH y d), (IH y x). reflexivity.
Qed.

(** The loop leaves, in list order, one entry per touched bracket; the
    marginal rate is the rate of the last touched bracket. *)
Lemma loop_fold_spec (taxable : number) (l : list TaxBracket) :
  forall st,
    let hit := filter (touched taxable) l in
    fold_left (loop_body taxable) l st =
    mkLoop (fold_left (fun s e => add s (tax_at_this_bracket e))
                      (map (entry_of taxable) hit) (loop_taxOwed st))
           (last (map tax_rate hit) (loop_marginalRate st))
           (loop_breakdown st ++ map (entry_of taxable) hit).
Proof.
  induction l as [|b l IH]; intros st; simpl.
  - rewrite app_nil_r. now destruct st.
  - rewrite IH, loop_body_touched.
    destruct (touched taxable b) eqn:E; simpl; [|reflexivity].
    rewrite <- app_assoc.
    f_equal. symmetry.
    exact (last_cons_default _ (tax_rate b) (loop_marginalRate st)).
Qed.

Lemma bracket_loop_spec (taxable : number) (l : list TaxBracket) :
  let hit := filter (touched taxable) l in
  bracket_loop taxable l =
  mkLoop (sum_tax (map (entry_of taxable) hit))
         (last (map tax_rate hit) zero)
         (map (entry_of taxable) hit).
Proof. unfold bracket_loop. now rewrite loop_fold_spec. Qed.

Lemma bracket_loop_untouched (taxable : number) (l : list TaxBracket) :
  Forall (fun b => touched taxable b = false) l ->
  bracket_loop taxable l = loop_init.
Proof.
  intros H. rewrite bracket_loop_spec.
  assert (E : filter (touched taxable) l = []).
  { induction H as [|b l Hb _ IH]; simpl; [reflexivity|]. now rewrite Hb. }
  now rewrite E.
Qed.

(** No bracket is touched by a [NaN] taxable income. *)
Lemma touched_nan (b : TaxBracket) : touched NaN b = false.
Proof. unfold touched, gt. now destruct (income_bracket_min b). Qed.

Lemma bracket_loop_nan (l : list TaxBracket) :
  bracket_loop NaN l = loop_init.
Proof.
  apply bracket_loop_untouched, Forall_forall. intros. apply touched_nan.
Qed.

(** ** The sort *)

Lemma sort_insert_key (x : TaxBracket) (l : list TaxBracket) :
  sort_insert bracket_comparator x l =
  match l with
  | [] => [x]
  | y :: l' =>
      if lt (income_bracket_min y) (income_bracket_min x)
      then y :: sort_insert bracket_comparator x l'
      else x :: l
  end.
Proof.
  destruct l as [|y l']; [reflexivity|].
  cbn [sort_insert]. unfold bracket_comparator. now rewrite gt_sub_zero.
Qed.

Lemma sort_insert_perm (x : TaxBracket) (l : list TaxBracket) :
  Permutation (x :: l) (sort_insert bracket_comparator x l).
Proof.
  induction l as [|y l IH]; cbn [sort_insert]; [reflexivity|].
  destruct (gt (bracket_comparator x y) zero); [|reflexivity].
  rewrite perm_swap. now constructor.
Qed.

Lemma array_sort_perm (l : list TaxBracket) :
  Permutation l (array_sort bracket_comparator l).
Proof.
  induction l as [|x l IH]; cbn [array_sort fold_right]; [constructor|].
  rewrite <- sort_insert_perm. now constructor.
Qed.

Lemma sorted_brackets_In (input : TaxComputationInput) (b : TaxBracket) :
  In b (sorted_brackets input) <-> In b (brackets input).
Proof.
  unfold sorted_brackets. split; apply Permutation_in.
  - symmetry. apply array_sort_perm.
  - apply array_sort_perm.
Qed.

(** ** Shape of the result *)

Lemma result_effectiveRate (input : TaxComputationInput) :
  effectiveRate (calculateProgressiveTax input) =
  if gt (to_number (grossIncome input)) zero
  then mul (div (taxOwed (calculateProgressiveTax input))
                (to_number (grossIncome input))) hundred
  else zero.
Proof. reflexivity. Qed.

Lemma result_loop (input : TaxComputationInput) :
  let st := bracket_loop (taxableIncome_of input) (sorted_brackets input) in
  taxOwed (calculateProgressiveTax input) = loop_taxOwed st
  /\ marginalRate (calculateProgressiveTax input) = loop_marginalRate st
  /\ breakdown (calculateProgressiveTax input) = loop_breakdown st.
Proof. repeat split. Qed.

(** The guard [taxableIncome > bracketMin] is implied by a positive
    slice: a bracket is touched exactly when its slice is positive. *)
Lemma touched_slice_positive (taxable : number) (b : TaxBracket) :
  touched taxable b = gt (taxableAtThisBracket taxable b) zero.
Proof.
  unfold touched, taxableAtThisBracket.
  generalize (sub (nullish (income_bracket_max b) PInf)
                  (income_bracket_min b)) as hi.
  generalize (income_bracket_min b) as lo. intros lo hi.
  unfold gt, sub, zero.
  destruct taxable as [t| | |], lo as [m| | |], hi as [h| | |]; simpl;
    try reflexivity; num_cases; try reflexivity; try qc_lra;
    repeat match goal with
           | |- context [Qcltb ?x ?y] => destruct (Qcltb x y) eqn:?
           end; simpl; first [reflexivity | exfalso; qc_lra].
Qed.

Lemma filter_received_slice (input : TaxComputationInput)
  (l : list TaxBracket) :
  filter (touched (taxableIncome_of input)) l =
  filter (received_slice input) l.
Proof.
  apply filter_ext. intros b. apply touched_slice_positive.
Qed.

Lemma result_breakdown (input : TaxComputationInput) :
  breakdown (calculateProgressiveTax input) =
  map (entry_of (taxableIncome_of input))
      (filter (received_slice input) (sorted_brackets input)).
Proof.
  unfold calculateProgressiveTax. simpl.
  now rewrite bracket_loop_spec, filter_received_slice.
Qed.

Lemma result_taxOwed (input : TaxComputationInput) :
  taxOwed (calculateProgressiveTax input) =
  sum_tax (breakdown (calculateProgressiveTax input)).
Proof.
  unfold calculateProgressiveTax. simpl. now rewrite bracket_loop_spec.
Qed.

Lemma result_marginalRate (input : TaxComputationInput) :
  marginalRate (calculateProgressiveTax input) =
  last (map tax_rate (filter (received_slice input) (sorted_brackets input)))
       zero.
Proof.
  unfold calculateProgressiveTax. simpl.
  now rewrite bracket_loop_spec, filter_received_slice.
Qed.

(** ** Deductions and taxable income *)

(** [uncappedDeductions] is [NaN] or a number that is at least [0]. *)
Lemma uncappedDeductions_cases (input : TaxComputationInput) :
  uncappedDeductions_of input = NaN
  \/ le zero (uncappedDeductions_of input) = true
     /\ uncappedDeductions_of input <> NaN.
Proof.
  unfold uncappedDeductions_of.
  destruct (max_zero_cases
              (add (add (prop_or_zero (standardDeduction input))
                        (prop_or_zero (additionalDeductions input)))
                   (or_zero (pension_of input))))
    as [[_ H] | [_ H]]; auto.
Qed.

(** The pension is finite as soon as the cap is not an infinity. *)
Lemma pension_not_infinite (input : TaxComputationInput) :
  not_infinite (statutoryPensionAnnualCap input) ->
  exists x, or_zero (pension_of input) = Fin x.
Proof.
  intros [Hp Hn]. unfold pension_of.
  set (raw := mul _ _).
  assert (Hraw : exists y, (if isFinite raw then raw else zero) = Fin y).
  { destruct raw as [y| | |]; simpl; eexists; reflexivity. }
  destruct Hraw as [y ->].
  destruct (statutoryPensionAnnualCap input) as [[c| | |]|];
    try congruence.
  - simpl. destruct (Qcltb c y); rewrite or_zero_Fin; eauto.
  - exists 0. reflexivity.
  - simpl. rewrite or_zero_Fin; eauto.
Qed.

(** [uncappedDeductions] is a number whenever neither deduction nor the
    cap is an infinity. *)
Lemma uncappedDeductions_not_nan (input : TaxComputationInput) :
  not_infinite (standardDeduction input) ->
  not_infinite (additionalDeductions input) ->
  not_infinite (statutoryPensionAnnualCap input) ->
  uncappedDeductions_of input <> NaN.
Proof.
  intros Hs Ha Hc. unfold uncappedDeductions_of.
  destruct (prop_or_zero_not_infinite _ Hs) as [s ->].
  destruct (prop_or_zero_not_infinite _ Ha) as [a ->].
  destruct (pension_not_infinite _ Hc) as [p ->].
  simpl. destruct (Qcltb _ _); discriminate.
Qed.

(** With a finite gross income [g] and deductions [u] that are a number,
    the deductions stay below [g] and the taxable income is at least 0. *)
Lemma deductions_finite_gross (g : Qc) (u : number) :
  u <> NaN ->
  le (min (Fin g) u) (Fin g) = true
  /\ ge (max zero (sub (Fin g) (min (Fin g) u))) zero = true.
Proof.
  intros Hu. unfold ge, zero.
  destruct u as [x| | |]; try congruence; simpl; num_cases;
    split; try reflexivity; qc_lra.
Qed.

(** A negative finite gross income is deducted whole. *)
Lemma deductions_negative_gross (g : Qc) (u : number) :
  g < 0 -> le zero u = true ->
  min (Fin g) u = Fin g
  /\ max zero (sub (Fin g) (min (Fin g) u)) = zero.
Proof.
  intros Hg Hu. unfold zero in *.
  assert (E : min (Fin g) u = Fin g).
  { destruct u as [x| | |]; simpl in *; try discriminate; [|reflexivity].
    num_cases; [qc_lra | reflexivity]. }
  rewrite E. split; [reflexivity|]. simpl.
  num_cases; [qc_lra | reflexivity].
Qed.

(** A gross income of 0 has no deductions and no taxable income. *)
Lemma deductions_zero_gross (u : number) :
  le zero u = true ->
  min zero u = zero /\ max zero (sub zero (min zero u)) = zero.
Proof.
  intros Hu. unfold zero in *.
  assert (E : min (Fin 0) u = Fin 0).
  { destruct u as [x| | |]; simpl in *; try discriminate; [|reflexivity].
    num_cases; [qc_lra | reflexivity]. }
  rewrite E. split; reflexivity.
Qed.

(** A gross income of at most 0 leaves a taxable income of 0, or [NaN]. *)
Lemma taxable_nonpositive_gross (input : TaxComputationInput) :
  le (prop_or_zero (grossIncome input)) zero = true ->
  taxableIncome_of input = zero \/ taxableIncome_of input = NaN.
Proof.
  intros Hg. unfold taxableIncome_of, totalDeductions_of.
  destruct (uncappedDeductions_cases input) as [-> | [Hu Hn]].
  - right. destruct (prop_or_zero (grossIncome input)); reflexivity.
  - destruct (prop_or_zero (grossIncome input)) as [g| | |];
      simpl in Hg; try discriminate.
    + left. apply Qcleb_le, Qcle_lt_or_eq in Hg. destruct Hg as [Hg | ->].
      * now apply deductions_negative_gross.
      * now apply deductions_zero_gross.
    + right. destruct (uncappedDeductions_of input); simpl in *;
        congruence.
Qed.



(** ** Evaluating on concrete inputs *)

Ltac num_eq :=
  vm_compute;
  repeat first [ reflexivity | apply Qc_is_canon; reflexivity | f_equal ].

(** C1. With brackets [(0, 10000, 10%); (10000, unbounded, 20%)], no
    deductions, pension rate 0 and a gross income of 15000, the taxable
    income is 15000, the breakdown taxes 10000 at 10% for 1000 and then
    5000 at 20% for 1000, the tax owed is 2000, the marginal rate is 20 and
    the effective rate is 2000 / 15000 * 100 = 40/3, which lies between
    13.33 and 13.34. *)
Theorem C1_worked_example :
  let r := calculateProgressiveTax (plain_input 15000 two_brackets) in
  taxableIncome r = of_Z 15000
  /\ breakdown r =
       [ mkEntry (of_Z 0) (Some (of_Z 10000)) (of_Z 10)
                 (of_Z 10000) (of_Z 1000);
         mkEntry (of_Z 10000) None (of_Z 20) (of_Z 5000) (of_Z 1000) ]
  /\ taxOwed r = of_Z 2000
  /\ marginalRate r = of_Z 20
  /\ effectiveRate r = mul (div (of_Z 2000) (of_Z 15000)) hundred
  /\ effectiveRate r = Fin (Q2Qc (40 # 3))
  /\ lt (Fin (Q2Qc (1333 # 100))) (effectiveRate r) = true
  /\ lt (effectiveRate r) (Fin (Q2Qc (1334 # 100))) = true.
Proof. repeat split; num_eq. Qed.

(** ** Invariants of the result *)

(** C3, amended. When the gross income is not an infinity and the
    uncapped deductions are a number (not [NaN]), the taxable income is at
    least 0 and the deductions are at most the gross income, an absent or
    [NaN] gross income counting as 0. *)
Theorem C3_taxable_nonneg_deductions_bounded (input : TaxComputationInput) :
  not_infinite (grossIncome input) ->
  uncappedDeductions (calculateProgressiveTax input) <> NaN ->
  ge (taxableIncome (calculateProgressiveTax input)) zero = true
  /\ le (deductions (calculateProgressiveTax input))
        (prop_or_zero (grossIncome input)) = true.
Proof.
  intros Hg Hu. simpl in *.
  unfold taxableIncome_of, totalDeductions_of.
  destruct (prop_or_zero_not_infinite _ Hg) as [g ->].
  destruct (deductions_finite_gross g _ Hu) as [Hd Ht]. now split.
Qed.

Lemma C3_witness :
  ge (taxableIncome
        (calculateProgressiveTax (plain_input 15000 two_brackets))) zero
    = true
  /\ le (deductions
           (calculateProgressiveTax (plain_input 15000 two_brackets)))
        (prop_or_zero (grossIncome (plain_input 15000 two_brackets)))
     = true.
Proof.
  apply C3_taxable_nonneg_deductions_bounded.
  - split; discriminate.
  - discriminate.
Defined.

(** C3 as stated fails: with standard deduction [+Infinity] and additional
    deductions [-Infinity] their sum is [NaN], and so are the deductions
    and the taxable income. *)
Lemma C3_counterexample :
  let input := mkInput (Some (of_Z 100)) (Some NInf) (Some PInf) []
                       None None in
  let r := calculateProgressiveTax input in
  ge (taxableIncome r) zero = false
  /\ le (deductions r) (to_number (grossIncome input)) = false
  /\ le (deductions r) (prop_or_zero (grossIncome input)) = false.
Proof. repeat split. Qed.

Lemma deductionsCapped_gt (input : TaxComputationInput) :
  lt (totalDeductions_of input) (uncappedDeductions_of input) =
  gt (uncappedDeductions_of input) (prop_or_zero (grossIncome input)).
Proof. unfold totalDeductions_of, gt. apply lt_min_l. Qed.

(** C4, amended. [deductionsCapped] holds exactly when the uncapped
    deductions exceed the gross income as the function reads it,
    [grossIncome || 0] (the gross income itself unless it is absent or
    [NaN], which count as 0), which is exactly when the deductions are
    below the uncapped deductions. *)
Theorem C4_deductionsCapped_iff (input : TaxComputationInput) :
  let r := calculateProgressiveTax input in
  deductionsCapped r =
    gt (uncappedDeductions r) (prop_or_zero (grossIncome input))
  /\ gt (uncappedDeductions r) (prop_or_zero (grossIncome input)) =
       lt (deductions r) (uncappedDeductions r).
Proof.
  simpl. rewrite deductionsCapped_gt. split; reflexivity.
Qed.

(** C4 as stated fails for a gross income that is [NaN], and likewise
    for one that is absent: with a standard deduction of 100 the
    deductions are capped at 0, yet no comparison with [NaN] holds. *)
Lemma C4_counterexample :
  let input g := mkInput g (Some zero) (Some (of_Z 100)) [] None None in
  let r g := calculateProgressiveTax (input g) in
  (deductionsCapped (r (Some NaN)) = true
   /\ uncappedDeductions (r (Some NaN)) = of_Z 100
   /\ deductions (r (Some NaN)) = zero
   /\ gt (uncappedDeductions (r (Some NaN)))
         (to_number (grossIncome (input (Some NaN)))) = false)
  /\ (deductionsCapped (r None) = true
      /\ gt (uncappedDeductions (r None))
            (to_number (grossIncome (input None))) = false).
Proof. repeat split. Qed.

(** For a gross income that is present and not [NaN], [grossIncome || 0]
    is the gross income itself. *)
Lemma deductionsCapped_present (input : TaxComputationInput) (g : number) :
  grossIncome input = Some g -> g <> NaN ->
  deductionsCapped (calculateProgressiveTax input) =
    gt (uncappedDeductions (calculateProgressiveTax input)) g.
Proof.
  intros Hg Hn. simpl. rewrite deductionsCapped_gt, Hg.
  now rewrite prop_or_zero_present.
Qed.

(** C5. The taxes of the breakdown entries add up to the tax owed: the
    two are the same number, in exact arithmetic. *)
Theorem C5_breakdown_sums_to_taxOwed (input : TaxComputationInput) :
  sum_tax (breakdown (calculateProgressiveTax input)) =
  taxOwed (calculateProgressiveTax input).
Proof. symmetry. apply result_taxOwed. Qed.

(** A gross income of at most 0 never passes the test [grossIncome > 0]. *)
Lemma nonpositive_gross_not_gt (v : option number) :
  le (prop_or_zero v) zero = true -> gt (to_number v) zero = false.
Proof.
  destruct v as [[x| | |]|]; simpl; try reflexivity; try discriminate.
  rewrite or_zero_Fin. simpl. intros H. qc_lra.
Qed.

(** Brackets that start at 0 or above are untouched by a taxable income
    of 0. *)
Lemma untouched_by_zero (b : TaxBracket) :
  lt (income_bracket_min b) zero = false -> touched zero b = false.
Proof. intros H. unfold touched, gt. now rewrite H. Qed.

(** C6, amended. For a gross income of at most 0 (absent and [NaN]
    counting as 0) the effective rate is 0; when moreover no bracket
    starts below 0, the tax owed is 0 and the breakdown is empty; and for
    a gross income of 0 the deductions are 0 unless the uncapped
    deductions are [NaN]. *)
Theorem C6_nonpositive_gross (input : TaxComputationInput) :
  le (prop_or_zero (grossIncome input)) zero = true ->
  let r := calculateProgressiveTax input in
  effectiveRate r = zero
  /\ (Forall (fun b => lt (income_bracket_min b) zero = false)
             (brackets input) ->
      taxOwed r = zero /\ breakdown r = [])
  /\ (prop_or_zero (grossIncome input) = zero ->
      uncappedDeductions r <> NaN -> deductions r = zero).
Proof.
  intros Hg r. subst r. split; [|split].
  - now rewrite result_effectiveRate, nonpositive_gross_not_gt.
  - intros Hb.
    assert (E : bracket_loop (taxableIncome_of input) (sorted_brackets input)
                = loop_init).
    { destruct (taxable_nonpositive_gross input Hg) as [-> | ->].
      - apply bracket_loop_untouched, Forall_forall. intros b Hin.
        apply untouched_by_zero.
        apply sorted_brackets_In in Hin.
        now apply (proj1 (Forall_forall _ _) Hb).
      - apply bracket_loop_nan. }
    destruct (result_loop input) as (-> & _ & ->).
    rewrite E. split; reflexivity.
  - simpl. intros Hz Hu. unfold totalDeductions_of. rewrite Hz.
    destruct (uncappedDeductions_cases input) as [H | [H _]];
      [congruence|].
    now apply deductions_zero_gross.
Qed.

Lemma C6_witness :
  let r := calculateProgressiveTax (plain_input 0 two_brackets) in
  effectiveRate r = zero /\ taxOwed r = zero /\ breakdown r = []
  /\ deductions r = zero.
Proof.
  destruct (C6_nonpositive_gross (plain_input 0 two_brackets) eq_refl)
    as (He & Hb & Hd).
  destruct Hb as [Ht Hbr].
  { repeat constructor. }
  split; [exact He | split; [exact Ht | split; [exact Hbr |]]].
  apply Hd; [reflexivity | discriminate].
Defined.

(** C6 as stated fails: a bracket that starts below 0 is taxed even on a
    gross income of 0. *)
Lemma C6_counterexample :
  let input := plain_input 0 [bracket (-100) None 10] in
  let r := calculateProgressiveTax input in
  grossIncome input = Some zero
  /\ taxOwed r = of_Z 10
  /\ taxOwed r <> zero
  /\ breakdown r <> [].
Proof.
  repeat split; try num_eq.
  - intros H. apply (f_equal (fun n => lt zero n)) in H. vm_compute in H.
    discriminate.
  - vm_compute. discriminate.
Qed.

(** C10, amended. For a finite negative gross income the deductions are
    the gross income itself and the taxable income is 0, unless the
    uncapped deductions are [NaN]. *)
Theorem C10_negative_gross (input : TaxComputationInput) (g : Qc) :
  grossIncome input = Some (Fin g) -> g < 0 ->
  uncappedDeductions (calculateProgressiveTax input) <> NaN ->
  deductions (calculateProgressiveTax input) = Fin g
  /\ taxableIncome (calculateProgressiveTax input) = zero.
Proof.
  intros Hg Hneg Hu. simpl in *.
  unfold taxableIncome_of, totalDeductions_of.
  rewrite Hg. simpl. rewrite or_zero_Fin.
  destruct (uncappedDeductions_cases input) as [H | [H _]]; [congruence|].
  now apply deductions_negative_gross.
Qed.

Lemma C10_witness :
  deductions (calculateProgressiveTax (plain_input (-5) two_brackets))
    = Fin (Q2Qc (inject_Z (-5)))
  /\ taxableIncome (calculateProgressiveTax (plain_input (-5) two_brackets))
     = zero.
Proof.
  apply C10_negative_gross.
  - reflexivity.
  - reflexivity.
  - discriminate.
Defined.

(** C10 as stated fails: deductions of [+Infinity] and [-Infinity] add up
    to [NaN], and so are the deductions and the taxable income. *)
Lemma C10_counterexample :
  let input := mkInput (Some (of_Z (-5))) (Some NInf) (Some PInf) []
                       None None in
  let r := calculateProgressiveTax input in
  deductions r = NaN /\ taxableIncome r = NaN
  /\ deductions r <> of_Z (-5) /\ taxableIncome r <> zero.
Proof. repeat split; discriminate. Qed.

(** ** Coercion of invalid fields *)





Ltac unfold_calculate :=
  unfold calculateProgressiveTax, taxableIncome_of, totalDeductions_of,
    uncappedDeductions_of, pension_of, sorted_brackets;
  cbn [grossIncome additionalDeductions standardDeduction brackets
       statutoryPensionRatePercent statutoryPensionAnnualCap
       with_grossIncome with_additionalDeductions with_standardDeduction
       with_statutoryPensionRatePercent with_brackets].













(** ** Sortedness of the sorted brackets *)

Lemma le_trans (a b c : number) :
  le a b = true -> le b c = true -> le a c = true.
Proof.
  destruct a, b, c; simpl; try reflexivity; try discriminate.
  intros H1 H2. qc_lra.
Qed.

Lemma lt_le (a b : number) : lt a b = true -> le a b = true.
Proof.
  destruct a, b; simpl; try reflexivity; try discriminate.
  intros H. qc_lra.
Qed.

Lemma le_neq_lt (a b : number) : le a b = true -> a <> b -> lt a b = true.
Proof.
  intros Hle Hne.
  assert (Ha : a <> NaN) by (intros ->; discriminate).
  assert (Hb : b <> NaN) by (intros ->; destruct a; discriminate).
  destruct (lt_total a b Ha Hb Hne) as [H | H]; [assumption|].
  rewrite le_not_gt, H in Hle by assumption. discriminate.
Qed.

Lemma sort_insert_sorted (x : TaxBracket) (l : list TaxBracket) :
  key_number x -> Forall key_number l ->
  StronglySorted key_le l ->
  StronglySorted key_le (sort_insert bracket_comparator x l).
Proof.
  intros Hx Hl Hs. induction Hs as [|y l Hs IH Hy].
  - repeat constructor.
  - rewrite sort_insert_key.
    inversion Hl as [|? ? Hyn Hl']; subst.
    destruct (lt (income_bracket_min y) (income_bracket_min x)) eqn:E.
    + constructor; [now apply IH|].
      apply (Permutation_Forall (sort_insert_perm x l)).
      constructor; [now apply lt_le | assumption].
    + assert (Hxy : key_le x y).
      { unfold key_le. rewrite le_not_gt, E by assumption. reflexivity. }
      constructor; [now constructor|].
      constructor; [assumption|].
      eapply Forall_impl; [|exact Hy].
      intros z Hz. eapply le_trans; eassumption.
Qed.

Lemma array_sort_sorted (l : list TaxBracket) :
  Forall key_number l ->
  StronglySorted key_le (array_sort bracket_comparator l).
Proof.
  induction 1 as [|x l Hx Hl IH]; cbn [array_sort fold_right].
  - constructor.
  - apply sort_insert_sorted; try assumption.
    now apply (Permutation_Forall (array_sort_perm l)).
Qed.

(** With pairwise distinct minima the order is strict. *)
Lemma sorted_strict (l : list TaxBracket) :
  NoDup (map income_bracket_min l) ->
  StronglySorted key_le l -> StronglySorted key_lt l.
Proof.
  intros Hd Hs. induction Hs as [|x l Hs IH Hx]; [constructor|].
  inversion Hd as [|? ? Hnin Hd']; subst.
  constructor; [now apply IH|].
  apply Forall_forall. intros y Hy.
  apply le_neq_lt.
  - now apply (proj1 (Forall_forall _ _) Hx).
  - intros E. apply Hnin. rewrite E. now apply in_map.
Qed.

(** A strictly sorted list is determined by its elements. *)
Lemma strict_sorted_unique (l1 l2 : list TaxBracket) :
  StronglySorted key_lt l1 -> StronglySorted key_lt l2 ->
  Permutation l1 l2 -> l1 = l2.
Proof.
  intros H1. revert l2.
  induction H1 as [|a l1 H1 IH Ha]; intros l2 H2 Hp.
  - now apply Permutation_nil in Hp.
  - destruct H2 as [|b l2 H2 Hb].
    + symmetry in Hp. now apply Permutation_nil in Hp.
    + assert (E : a = b).
      { assert (Hina : In a (b :: l2))
          by (apply (Permutation_in _ Hp); now left).
        assert (Hinb : In b (a :: l1))
          by (apply (Permutation_in _ (Permutation_sym Hp)); now left).
        destruct Hina as [-> | Hina]; [reflexivity|].
        destruct Hinb as [-> | Hinb]; [reflexivity|].
        pose proof (proj1 (Forall_forall _ _) Ha _ Hinb) as Hab.
        pose proof (proj1 (Forall_forall _ _) Hb _ Hina) as Hba.
        unfold key_lt in *. apply lt_asym in Hab. congruence. }
      subst b. f_equal. apply IH; [assumption|].
      now apply Permutation_cons_inv in Hp.
Qed.

(** Brackets with pairwise distinct minima, none of them [NaN], sort to
    the same list in whatever order they come. *)
Lemma array_sort_permutation (l l' : list TaxBracket) :
  Permutation l l' ->
  Forall key_number l ->
  NoDup (map income_bracket_min l) ->
  array_sort bracket_comparator l' = array_sort bracket_comparator l.
Proof.
  intros Hp Hn Hd.
  apply strict_sorted_unique.
  - apply sorted_strict.
    + apply (Permutation_NoDup (l := map income_bracket_min l));
        [|assumption].
      apply Permutation_map.
      rewrite <- (array_sort_perm l'). assumption.
    + apply array_sort_sorted. now apply (Permutation_Forall Hp).
  - apply sorted_strict.
    + apply (Permutation_NoDup (l := map income_bracket_min l));
        [|assumption].
      apply Permutation_map, array_sort_perm.
    + now apply array_sort_sorted.
  - rewrite <- (array_sort_perm l'), <- (array_sort_perm l).
    now symmetry.
Qed.

(** ** Reordering the brackets *)

(** C7, amended. When the bracket minima are pairwise distinct and none
    is [NaN], every permutation of the brackets gives the identical
    result; in particular the unordered list
    [(10000, unbounded, 20%); (0, 10000, 10%)] gives the result of its
    sorted version. *)
Theorem C7_permutation_invariant (input : TaxComputationInput)
  (bs : list TaxBracket) :
  Permutation (brackets input) bs ->
  Forall (fun b => income_bracket_min b <> NaN) (brackets input) ->
  NoDup (map income_bracket_min (brackets input)) ->
  calculateProgressiveTax (with_brackets bs input) =
  calculateProgressiveTax input.
Proof.
  intros Hp Hn Hd. destruct input as [g a s l r c].
  unfold_calculate.
  now rewrite (array_sort_permutation l bs Hp Hn Hd).
Qed.

Lemma C7_witness :
  calculateProgressiveTax (plain_input 15000 two_brackets_unordered) =
  calculateProgressiveTax (plain_input 15000 two_brackets).
Proof.
  apply (C7_permutation_invariant (plain_input 15000 two_brackets)
           two_brackets_unordered).
  - apply perm_swap.
  - repeat constructor; discriminate.
  - repeat constructor; simpl.
    + intros [H | []]. vm_compute in H. discriminate H.
    + intros [].
Defined.

(** C7 as stated fails when two brackets share their minimum: the stable
    sort keeps them in input order, so the order decides the marginal rate
    and the order of the breakdown. *)
Lemma C7_counterexample :
  let bs := [bracket 0 (Some 100%Z) 10; bracket 0 (Some 100%Z) 20] in
  let bs' := [bracket 0 (Some 100%Z) 20; bracket 0 (Some 100%Z) 10] in
  Permutation bs bs'
  /\ marginalRate (calculateProgressiveTax (plain_input 50 bs)) = of_Z 20
  /\ marginalRate (calculateProgressiveTax (plain_input 50 bs')) = of_Z 10
  /\ calculateProgressiveTax (plain_input 50 bs') <>
     calculateProgressiveTax (plain_input 50 bs).
Proof.
  split; [apply perm_swap|]. split; [num_eq|]. split; [num_eq|].
  intros H. apply (f_equal marginalRate) in H.
  apply (f_equal (fun n => lt n (of_Z 15))) in H. vm_compute in H.
  discriminate.
Qed.

(** ** The marginal rate *)

Lemma last_In_nonempty {A : Type} (l : list A) (d : A) :
  l <> [] -> In (last l d) l.
Proof.
  induction l as [|x l IH]; [congruence|]. intros _.
  destruct l as [|y l]; [now left|].
  right. apply IH. discriminate.
Qed.

Lemma last_map_nonempty {A B : Type} (f : A -> B) (l : list A)
  (d : A) (e : B) :
  l <> [] -> last (map f l) e = f (last l d).
Proof.
  induction l as [|x l IH]; [congruence|]. intros _.
  destruct l as [|y l]; [reflexivity|].
  change (last (map f (y :: l)) e = f (last (y :: l) d)).
  apply IH. discriminate.
Qed.

Lemma sorted_filter {A : Type} (R : A -> A -> Prop) (f : A -> bool)
  (l : list A) :
  StronglySorted R l -> StronglySorted R (filter f l).
Proof.
  induction 1 as [|x l Hs IH Hx]; simpl; [constructor|].
  destruct (f x); [|assumption].
  constructor; [assumption|].
  apply Forall_forall. intros y Hy. apply filter_In in Hy.
  now apply (proj1 (Forall_forall _ _) Hx).
Qed.

(** The last element of a sorted list is above all the others. *)
Lemma sorted_last_greatest {A : Type} (R : A -> A -> Prop) (l : list A)
  (d : A) :
  StronglySorted R l -> (forall a, In a l -> R a a) ->
  forall a, In a l -> R a (last l d).
Proof.
  induction 1 as [|x l Hs IH Hx]; intros Hrefl a Hin; [destruct Hin|].
  destruct l as [|y l].
  - destruct Hin as [-> | []]. apply Hrefl. now left.
  - change (R a (last (y :: l) d)).
    destruct Hin as [-> | Hin].
    + apply (proj1 (Forall_forall _ _) Hx).
      apply last_In_nonempty. discriminate.
    + apply IH; [|assumption]. intros b Hb. apply Hrefl. now right.
Qed.

Lemma NoDup_map_injective {A B : Type} (f : A -> B) (l : list A) (a b : A) :
  NoDup (map f l) -> In a l -> In b l -> f a = f b -> a = b.
Proof.
  induction l as [|x l IH]; intros Hd Ha Hb E; [destruct Ha|].
  inversion Hd as [|? ? Hnin Hd']; subst.
  destruct Ha as [-> | Ha], Hb as [-> | Hb].
  - reflexivity.
  - exfalso. apply Hnin. rewrite E. now apply in_map.
  - exfalso. apply Hnin. rewrite <- E. now apply in_map.
  - now apply IH.
Qed.

Lemma sliced_brackets_In (input : TaxComputationInput) (b : TaxBracket) :
  In b (sliced_brackets input) <->
  In b (brackets input) /\ received_slice input b = true.
Proof.
  unfold sliced_brackets. rewrite filter_In, sorted_brackets_In. reflexivity.
Qed.

(** When no minimum is [NaN], the marginal rate is the rate of a bracket
    that received a slice and whose minimum is the greatest among the
    brackets that did. *)
Lemma marginalRate_greatest (input : TaxComputationInput) :
  Forall key_number (brackets input) ->
  (exists b, In b (brackets input) /\ received_slice input b = true) ->
  exists b,
    In b (brackets input) /\ received_slice input b = true
    /\ marginalRate (calculateProgressiveTax input) = tax_rate b
    /\ forall b', In b' (brackets input) -> received_slice input b' = true ->
                  le (income_bracket_min b') (income_bracket_min b) = true.
Proof.
  intros Hn (b0 & Hin0 & Hr0).
  assert (Hne : sliced_brackets input <> []).
  { intros E. assert (H : In b0 (sliced_brackets input))
      by now apply sliced_brackets_In.
    rewrite E in H. destruct H. }
  pose proof (last_In_nonempty _ b0 Hne) as Hlast.
  exists (last (sliced_brackets input) b0).
  apply sliced_brackets_In in Hlast as Hlast'. destruct Hlast' as [Hin Hr].
  split; [assumption|]. split; [assumption|]. split.
  - rewrite result_marginalRate. now apply last_map_nonempty.
  - intros b' Hin' Hr'.
    apply (sorted_last_greatest key_le).
    + apply sorted_filter, array_sort_sorted, Hn.
    + intros a Ha. apply sliced_brackets_In in Ha as [Ha _].
      apply le_refl. now apply (proj1 (Forall_forall _ _) Hn).
    + now apply sliced_brackets_In.
Qed.

Lemma marginalRate_none (input : TaxComputationInput) :
  (forall b, In b (brackets input) -> received_slice input b = false) ->
  marginalRate (calculateProgressiveTax input) = zero.
Proof.
  intros H. rewrite result_marginalRate.
  fold (sliced_brackets input).
  destruct (sliced_brackets input) as [|b l] eqn:E; [reflexivity|].
  assert (Hb : In b (sliced_brackets input)) by (rewrite E; now left).
  apply sliced_brackets_In in Hb as [Hin Hr].
  rewrite (H b Hin) in Hr. discriminate.
Qed.

(** C8, amended. The marginal rate is 0 when no bracket received a
    positive slice.  Otherwise, when no bracket minimum is [NaN], it is the
    rate of a bracket that received a positive slice and whose minimum is
    the greatest among such brackets: the one that comes last in the
    stable ascending sort.  When moreover the minima are pairwise
    distinct, that bracket is the only one with the greatest minimum. *)
Theorem C8_marginalRate (input : TaxComputationInput) :
  let r := calculateProgressiveTax input in
  let sliced b := In b (brackets input) /\ received_slice input b = true in
  let greatest b :=
    forall b', sliced b' ->
               le (income_bracket_min b') (income_bracket_min b) = true in
  ((forall b, In b (brackets input) -> received_slice input b = false) ->
   marginalRate r = zero)
  /\ (Forall (fun b => income_bracket_min b <> NaN) (brackets input) ->
      (exists b, sliced b) ->
      marginalRate r =
        tax_rate (last (sliced_brackets input) (mkTaxBracket NaN None NaN))
      /\ exists b, sliced b /\ greatest b /\ marginalRate r = tax_rate b)
  /\ (Forall (fun b => income_bracket_min b <> NaN) (brackets input) ->
      NoDup (map income_bracket_min (brackets input)) ->
      forall b, sliced b -> greatest b -> marginalRate r = tax_rate b).
Proof.
  intros r sliced greatest. subst r sliced greatest. cbv beta.
  split; [apply marginalRate_none|]. split.
  - intros Hn Hex. split.
    + destruct Hex as (b0 & Hin0 & Hr0).
      rewrite result_marginalRate. apply last_map_nonempty.
      intros E. assert (H : In b0 (sliced_brackets input))
        by now apply sliced_brackets_In.
      rewrite E in H. destruct H.
    + destruct (marginalRate_greatest input Hn Hex)
        as (b & Hin & Hr & Hm & Hg).
      exists b. repeat split; try assumption.
      intros b' [Hin' Hr']. now apply Hg.
  - intros Hn Hd b [Hin Hr] Hg.
    destruct (marginalRate_greatest input Hn)
      as (b1 & Hin1 & Hr1 & Hm & Hg1); [now exists b|].
    rewrite Hm. f_equal.
    apply (NoDup_map_injective income_bracket_min (brackets input));
      try assumption.
    apply le_antisym; [apply Hg | apply Hg1]; auto.
Qed.

Lemma C8_witness :
  marginalRate (calculateProgressiveTax (plain_input 0 two_brackets)) = zero
  /\ marginalRate (calculateProgressiveTax (plain_input 15000 two_brackets))
     = tax_rate (last (sliced_brackets (plain_input 15000 two_brackets))
                      (mkTaxBracket NaN None NaN))
  /\ marginalRate (calculateProgressiveTax (plain_input 15000 two_brackets))
     = tax_rate (bracket 10000 None 20).
Proof.
  destruct (C8_marginalRate (plain_input 0 two_brackets)) as (H0 & _ & _).
  destruct (C8_marginalRate (plain_input 15000 two_brackets))
    as (_ & H1 & H2).
  assert (Hn : Forall (fun b => income_bracket_min b <> NaN)
                      (brackets (plain_input 15000 two_brackets)))
    by (repeat constructor; discriminate).
  assert (Hs : In (bracket 10000 None 20)
                  (brackets (plain_input 15000 two_brackets))
               /\ received_slice (plain_input 15000 two_brackets)
                                 (bracket 10000 None 20) = true)
    by (split; [right; left; reflexivity | reflexivity]).
  split; [|split].
  - apply H0. intros b [<- | [<- | []]]; reflexivity.
  - apply H1; [exact Hn | exists (bracket 10000 None 20); exact Hs].
  - apply H2.
    + exact Hn.
    + repeat constructor; simpl.
      * intros [H | []]. vm_compute in H. discriminate H.
      * intros [].
    + exact Hs.
    + intros b' [[<- | [<- | []]] _]; reflexivity.
Defined.

(** C8 as stated fails when brackets share the greatest minimum: both
    brackets below received a slice and start at 0, and the marginal rate
    is that of the second one only. *)
Lemma C8_counterexample :
  let input := plain_input 50 [bracket 0 (Some 100%Z) 10;
                               bracket 0 (Some 100%Z) 20] in
  let b := bracket 0 (Some 100%Z) 10 in
  In b (brackets input)
  /\ received_slice input b = true
  /\ (forall b', In b' (brackets input) -> received_slice input b' = true ->
                 le (income_bracket_min b') (income_bracket_min b) = true)
  /\ marginalRate (calculateProgressiveTax input) = of_Z 20
  /\ marginalRate (calculateProgressiveTax input) <> tax_rate b.
Proof.
  split; [now left|]. split; [reflexivity|]. split; [|split].
  - intros b' [<- | [<- | []]] _; reflexivity.
  - num_eq.
  - intros H. apply (f_equal (fun n => lt n (of_Z 15))) in H.
    vm_compute in H. discriminate.
Qed.

(** A [NaN] minimum makes the comparator inconsistent: in the modelled
    sort the bracket starting at 3 stays behind the one starting at 5, and
    gives the marginal rate although 5 is the greater minimum. *)
Lemma marginalRate_nan_minimum :
  let input := plain_input 10 [bracket 5 None 10;
                               mkTaxBracket NaN None zero;
                               bracket 3 None 20] in
  received_slice input (bracket 5 None 10) = true
  /\ received_slice input (bracket 3 None 20) = true
  /\ marginalRate (calculateProgressiveTax input) = of_Z 20.
Proof. split; [reflexivity|]. split; [reflexivity|]. num_eq. Qed.

(** ** Monotonicity in the gross income *)

Lemma loop_taxOwed_fold (taxable : number) (l : list TaxBracket) :
  forall st,
    loop_taxOwed (fold_left (loop_body taxable) l st) =
    fold_left (owed_step taxable) l (loop_taxOwed st).
Proof.
  induction l as [|b l IH]; intros st; [reflexivity|].
  cbn [fold_left]. rewrite IH, loop_body_touched. unfold owed_step.
  destruct (touched taxable b); reflexivity.
Qed.

Lemma slice_of_spec (t : Qc) (b : TaxBracket) :
  income_bracket_min b <> NInf ->
  touched (Fin t) b = true ->
  taxableAtThisBracket (Fin t) b = Fin (slice_of t b).
Proof.
  intros Hm Ht. unfold slice_of. rewrite Ht.
  rewrite touched_slice_positive in Ht.
  unfold taxableAtThisBracket in *.
  destruct (income_bracket_min b) as [m| | |]; try congruence;
    destruct (nullish (income_bracket_max b) PInf) as [h| | |];
    simpl in *; try discriminate; try reflexivity;
    destruct (Qcltb _ _); reflexivity.
Qed.

Lemma slice_of_mono (t1 t2 : Qc) (b : TaxBracket) :
  income_bracket_min b <> NInf -> t1 <= t2 ->
  0 <= slice_of t1 b /\ slice_of t1 b <= slice_of t2 b.
Proof.
  intros Hm Ht. unfold slice_of.
  rewrite !touched_slice_positive. unfold taxableAtThisBracket.
  destruct (income_bracket_min b) as [m| | |]; try congruence;
    destruct (nullish (income_bracket_max b) PInf) as [h| | |];
    unfold gt, zero; simpl; num_cases; split; qc_lra.
Qed.

Lemma div_hundred (r : Qc) : div (Fin r) hundred = Fin (r / hundred_qc).
Proof. reflexivity. Qed.

Lemma rate_fraction_nonneg (r : Qc) : 0 <= r -> 0 <= r / hundred_qc.
Proof.
  intros H. unfold Qcle, hundred_qc in *.
  rewrite this_div, this_Q2Qc.
  apply Qle_shift_div_l; [reflexivity|]. simpl in *. lra.
Qed.

Lemma owed_step_finite (t a : Qc) (b : TaxBracket) (r : Qc) :
  income_bracket_min b <> NInf -> tax_rate b = Fin r ->
  owed_step (Fin t) (Fin a) b = Fin (a + slice_of t b * (r / hundred_qc)).
Proof.
  intros Hm Hr. unfold owed_step.
  destruct (touched (Fin t) b) eqn:E.
  - rewrite (slice_of_spec t b Hm E), Hr, div_hundred. reflexivity.
  - unfold slice_of. rewrite E. f_equal. ring.
Qed.

Lemma owed_fold_mono (t1 t2 : Qc) (l : list TaxBracket) :
  Forall bracket_ok l -> t1 <= t2 ->
  forall a1 a2, a1 <= a2 ->
  exists x1 x2,
    fold_left (owed_step (Fin t1)) l (Fin a1) = Fin x1
    /\ fold_left (owed_step (Fin t2)) l (Fin a2) = Fin x2
    /\ x1 <= x2.
Proof.
  intros Hl Ht. induction Hl as [|b l [Hm (r & Hr & Hr0)] _ IH];
    intros a1 a2 Ha.
  - exists a1, a2. repeat split. assumption.
  - cbn [fold_left].
    rewrite (owed_step_finite t1 a1 b r Hm Hr),
            (owed_step_finite t2 a2 b r Hm Hr).
    apply IH.
    destruct (slice_of_mono t1 t2 b Hm Ht) as [_ Hs].
    apply Qcplus_le_compat; [assumption|].
    apply Qcmult_le_compat_r; [assumption|].
    now apply rate_fraction_nonneg.
Qed.

Lemma owed_fold_nonneg (t : Qc) (l : list TaxBracket) :
  Forall bracket_ok l ->
  forall a, exists x,
    fold_left (owed_step (Fin t)) l (Fin a) = Fin x /\ a <= x.
Proof.
  induction 1 as [|b l [Hm (r & Hr & Hr0)] _ IH]; intros a.
  - exists a. split; [reflexivity | apply Qcle_refl].
  - cbn [fold_left]. rewrite (owed_step_finite t a b r Hm Hr).
    destruct (IH (a + slice_of t b * (r / hundred_qc))) as (x & -> & Hx).
    exists x. split; [reflexivity|].
    eapply Qcle_trans; [|exact Hx].
    destruct (slice_of_mono t t b Hm (Qcle_refl t)) as [Hs _].
    pose proof (rate_fraction_nonneg r Hr0) as Hk.
    assert (H0 : 0 <= slice_of t b * (r / hundred_qc)).
    { rewrite <- (Qcmult_0_l (r / hundred_qc)).
      now apply Qcmult_le_compat_r. }
    rewrite <- (Qcplus_0_r a) at 1.
    apply Qcplus_le_compat; [apply Qcle_refl | exact H0].
Qed.

Lemma owed_fold_nan (l : list TaxBracket) :
  fold_left (owed_step NaN) l zero = zero.
Proof.
  induction l as [|b l IH]; [reflexivity|].
  cbn [fold_left]. unfold owed_step at 2. now rewrite touched_nan.
Qed.

(** The taxable income is [NaN], [+Infinity] or a finite number that is
    not negative. *)
Lemma taxableIncome_cases (input : TaxComputationInput) :
  taxableIncome_of input = NaN \/ taxableIncome_of input = PInf
  \/ exists t, taxableIncome_of input = Fin t /\ 0 <= t.
Proof.
  unfold taxableIncome_of.
  destruct (max_zero_cases
              (sub (prop_or_zero (grossIncome input))
                   (totalDeductions_of input))) as [[_ H] | (_ & H & _)];
    [now left|].
  destruct (max zero _) as [t| | |]; simpl in H; try discriminate.
  - right. right. exists t. split; [reflexivity | qc_lra].
  - right. now left.
Qed.

Lemma result_taxOwed_fold (input : TaxComputationInput) :
  taxOwed (calculateProgressiveTax input) =
  fold_left (owed_step (taxableIncome_of input)) (sorted_brackets input) zero.
Proof.
  destruct (result_loop input) as (-> & _ & _).
  unfold bracket_loop. now rewrite loop_taxOwed_fold.
Qed.

Lemma bracket_plain_ok (b : TaxBracket) : bracket_plain b -> bracket_ok b.
Proof.
  intros (m & r & Hm & _ & Hr & Hr0). split.
  - rewrite Hm. discriminate.
  - now exists r.
Qed.

Lemma brackets_plain_ok (l : list TaxBracket) :
  Forall bracket_plain l -> Forall bracket_ok l.
Proof. apply Forall_impl, bracket_plain_ok. Qed.

Ltac settle_mono :=
  first [ left; split; reflexivity
        | right; eexists; eexists;
          split; [reflexivity | split; [reflexivity | qc_lra]] ].

(** Against the same uncapped deductions [u], the taxable income grows
    with a finite gross income: both subtract the same amount, or are
    deducted whole. *)
Lemma taxable_mono_fixed_deductions (g1 g2 : Qc) (u : number) :
  g1 <= g2 -> u = NaN \/ le zero u = true ->
  let taxable g := max zero (sub (Fin g) (min (Fin g) u)) in
  (taxable g1 = NaN /\ taxable g2 = NaN)
  \/ exists t1 t2,
       taxable g1 = Fin t1 /\ taxable g2 = Fin t2 /\ t1 <= t2.
Proof.
  intros Hg Hu taxable. subst taxable. cbv beta. unfold zero in *.
  destruct u as [x| | |]; destruct Hu as [Hu | Hu]; try discriminate;
    simpl; num_cases; settle_mono.
Qed.

(** Without a pension (a rate that is absent, [NaN] or 0), two inputs
    with the same deductions and the same cap have the same uncapped
    deductions, whatever their gross incomes. *)
Lemma uncappedDeductions_without_pension (i1 i2 : TaxComputationInput) :
  standardDeduction i1 = standardDeduction i2 ->
  additionalDeductions i1 = additionalDeductions i2 ->
  statutoryPensionAnnualCap i1 = statutoryPensionAnnualCap i2 ->
  prop_or_zero (statutoryPensionRatePercent i1) = zero ->
  prop_or_zero (statutoryPensionRatePercent i2) = zero ->
  uncappedDeductions (calculateProgressiveTax i1) =
  uncappedDeductions (calculateProgressiveTax i2).
Proof.
  intros Hs Ha Hc Hr1 Hr2. cbn [uncappedDeductions calculateProgressiveTax].
  unfold uncappedDeductions_of, pension_of. cbv zeta.
  rewrite Hs, Ha, Hc, Hr1, Hr2.
  assert (E : forall g,
             (if isFinite (mul g (div zero hundred))
              then mul g (div zero hundred) else zero) = zero).
  { intros [g| | |]; try reflexivity.
    change (div zero hundred) with (Fin (0 / hundred_qc)). cbn [mul isFinite].
    unfold zero. f_equal. unfold Qcdiv. now rewrite Qcmult_0_l, Qcmult_0_r. }
  now rewrite !E.
Qed.

(** C2, amended. For two inputs with the same brackets and finite gross
    incomes whose results have the same uncapped deductions, when every
    bracket has a finite minimum and a finite rate that are not negative,
    the lower gross income owes no more tax than the higher. *)
Theorem C2_taxOwed_monotone (i1 i2 : TaxComputationInput) (g1 g2 : Qc) :
  brackets i1 = brackets i2 ->
  uncappedDeductions (calculateProgressiveTax i1) =
    uncappedDeductions (calculateProgressiveTax i2) ->
  grossIncome i1 = Some (Fin g1) ->
  grossIncome i2 = Some (Fin g2) ->
  g1 <= g2 ->
  Forall bracket_plain (brackets i1) ->
  le (taxOwed (calculateProgressiveTax i1))
     (taxOwed (calculateProgressiveTax i2)) = true.
Proof.
  intros Hb Hu Hg1 Hg2 Hg Hplain.
  rewrite !result_taxOwed_fold.
  cbn [uncappedDeductions calculateProgressiveTax] in Hu.
  unfold taxableIncome_of, totalDeductions_of, sorted_brackets.
  rewrite <- Hb, <- Hu, Hg1, Hg2. cbn [prop_or_zero].
  rewrite !or_zero_Fin.
  assert (Hcases : uncappedDeductions_of i1 = NaN
                   \/ le zero (uncappedDeductions_of i1) = true).
  { destruct (uncappedDeductions_cases i1) as [H | [H _]]; auto. }
  destruct (taxable_mono_fixed_deductions g1 g2 _ Hg Hcases)
    as [[-> ->] | (t1 & t2 & -> & -> & Ht)].
  - rewrite owed_fold_nan. reflexivity.
  - assert (Hsorted : Forall bracket_ok
                        (array_sort bracket_comparator (brackets i1))).
    { apply (Permutation_Forall (array_sort_perm _)).
      now apply brackets_plain_ok. }
    destruct (owed_fold_mono t1 t2 _ Hsorted Ht 0 0 (Qcle_refl 0))
      as (x1 & x2 & E1 & E2 & Hx).
    unfold zero. rewrite E1, E2. now apply Qcleb_le.
Qed.

Lemma C2_witness :
  le (taxOwed (calculateProgressiveTax (plain_input 15000 two_brackets)))
     (taxOwed (calculateProgressiveTax (plain_input 20000 two_brackets)))
  = true.
Proof.
  apply (C2_taxOwed_monotone (plain_input 15000 two_brackets)
           (plain_input 20000 two_brackets)
           (Q2Qc (inject_Z 15000)) (Q2Qc (inject_Z 20000)));
    try reflexivity.
  - apply Qcleb_le. reflexivity.
  - repeat constructor;
      eexists; eexists;
      (split; [reflexivity|]); (split; [apply Qcleb_le; reflexivity|]);
      (split; [reflexivity|]); apply Qcleb_le; reflexivity.
Defined.

(** C2 as stated fails for a negative tax rate: the tax owed falls as
    the gross income rises. *)
Lemma C2_counterexample :
  let i1 := plain_input 100 [bracket 0 None (-10)] in
  let i2 := plain_input 200 [bracket 0 None (-10)] in
  brackets i1 = brackets i2
  /\ standardDeduction i1 = standardDeduction i2
  /\ additionalDeductions i1 = additionalDeductions i2
  /\ statutoryPensionRatePercent i1 = statutoryPensionRatePercent i2
  /\ statutoryPensionAnnualCap i1 = statutoryPensionAnnualCap i2
  /\ le (to_number (grossIncome i1)) (to_number (grossIncome i2)) = true
  /\ taxOwed (calculateProgressiveTax i1) = of_Z (-10)
  /\ taxOwed (calculateProgressiveTax i2) = of_Z (-20)
  /\ le (taxOwed (calculateProgressiveTax i1))
        (taxOwed (calculateProgressiveTax i2)) = false.
Proof. repeat split; num_eq. Qed.

(** A pension rate above 100% also breaks monotonicity: with deductions of
    -1000 and a rate of 200%, a gross income of 600 owes 40 and a gross
    income of 1000 owes nothing. *)
Lemma taxOwed_falls_with_pension_above_100 :
  let input g := mkInput (Some (of_Z g)) (Some (of_Z (-1000))) (Some zero)
                         [bracket 0 None 10] (Some (of_Z 200)) None in
  taxOwed (calculateProgressiveTax (input 600%Z)) = of_Z 40
  /\ taxOwed (calculateProgressiveTax (input 1000%Z)) = zero.
Proof. split; num_eq. Qed.

(** ** Further properties of the result *)

Lemma min_not_lt (a b : number) :
  a <> NaN -> lt a b = false -> min a b = b.
Proof.
  intros Ha H.
  destruct a as [x| | |], b as [y| | |]; simpl in *;
    try congruence; try reflexivity.
  destruct (Qcltb y x) eqn:E; [reflexivity|]. f_equal. qc_lra.
Qed.

Lemma min_lt (a b : number) : lt a b = true -> min a b = a.
Proof.
  intros H. pose proof (lt_asym a b H) as H'.
  destruct a as [x| | |], b as [y| | |]; simpl in *;
    try congruence; try reflexivity.
  now rewrite H'.
Qed.

(** X1. When the deductions are not capped they are the uncapped
    deductions; when they are capped they are the gross income (absent and
    [NaN] counting as 0). *)
Theorem deductions_by_cap (input : TaxComputationInput) :
  let r := calculateProgressiveTax input in
  (deductionsCapped r = false -> deductions r = uncappedDeductions r)
  /\ (deductionsCapped r = true ->
      deductions r = prop_or_zero (grossIncome input)).
Proof.
  cbv zeta. cbn [deductionsCapped deductions uncappedDeductions
                 calculateProgressiveTax].
  rewrite deductionsCapped_gt. unfold totalDeductions_of, gt. split.
  - apply min_not_lt, prop_or_zero_not_nan.
  - apply min_lt.
Qed.

Lemma deductions_by_cap_witness :
  deductions (calculateProgressiveTax (plain_input 15000 two_brackets))
  = uncappedDeductions
      (calculateProgressiveTax (plain_input 15000 two_brackets))
  /\ deductions
       (calculateProgressiveTax
          (with_standardDeduction (Some (of_Z 20000))
                                  (plain_input 15000 two_brackets)))
     = prop_or_zero (grossIncome (plain_input 15000 two_brackets)).
Proof.
  split.
  - apply (proj1 (deductions_by_cap (plain_input 15000 two_brackets))).
    reflexivity.
  - apply (proj2 (deductions_by_cap
                    (with_standardDeduction (Some (of_Z 20000))
                       (plain_input 15000 two_brackets)))).
    reflexivity.
Defined.

Lemma clamp_never_acts (g u : number) :
  max zero (sub g (min g u)) = sub g (min g u).
Proof.
  unfold zero.
  destruct g as [g| | |], u as [x| | |]; simpl; try reflexivity;
    num_cases; try reflexivity; f_equal; qc_lra.
Qed.

(** X2. The taxable income is the gross income (absent and [NaN]
    counting as 0) less the deductions, as the function subtracts them:
    the difference is never below 0, so that the clamp at 0 never acts.
    When the deductions are capped the taxable income is 0, unless the
    gross income is [-Infinity]. *)
Theorem taxable_is_gross_less_deductions (input : TaxComputationInput) :
  let r := calculateProgressiveTax input in
  taxableIncome r = sub (prop_or_zero (grossIncome input)) (deductions r)
  /\ (deductionsCapped r = true -> grossIncome input <> Some NInf ->
      taxableIncome r = zero).
Proof.
  cbv zeta.
  cbn [deductions taxableIncome deductionsCapped calculateProgressiveTax].
  unfold taxableIncome_of, totalDeductions_of.
  split; [apply clamp_never_acts|].
  intros Hc Hn. rewrite clamp_never_acts.
  rewrite lt_min_l in Hc. rewrite (min_lt _ _ Hc).
  pose proof (prop_or_zero_not_nan (grossIncome input)) as Hg.
  destruct (grossIncome input) as [[g| | |]|]; try congruence.
  - unfold prop_or_zero, or_zero in *.
    destruct (truthy (Fin g)); simpl; unfold zero; f_equal; qc_lra.
  - exfalso. cbn [prop_or_zero] in Hc. change (or_zero PInf) with PInf in Hc.
    destruct (uncappedDeductions_of input); discriminate.
  - reflexivity.
  - reflexivity.
Qed.

Lemma taxable_is_gross_less_deductions_witness :
  taxableIncome
    (calculateProgressiveTax
       (with_standardDeduction (Some (of_Z 20000))
                               (plain_input 15000 two_brackets)))
  = zero.
Proof.
  apply (proj2 (taxable_is_gross_less_deductions
                  (with_standardDeduction (Some (of_Z 20000))
                     (plain_input 15000 two_brackets)))).
  - reflexivity.
  - discriminate.
Defined.

(** X3. The uncapped deductions are never negative and the deductions
    never exceed them, unless the uncapped deductions are [NaN]. *)
Theorem uncapped_bounds (input : TaxComputationInput) :
  uncappedDeductions (calculateProgressiveTax input) <> NaN ->
  ge (uncappedDeductions (calculateProgressiveTax input)) zero = true
  /\ le (deductions (calculateProgressiveTax input))
        (uncappedDeductions (calculateProgressiveTax input)) = true.
Proof.
  intros Hu.
  cbn [deductions uncappedDeductions calculateProgressiveTax] in *.
  destruct (uncappedDeductions_cases input) as [H | [H _]]; [congruence|].
  split; [exact H|]. unfold totalDeductions_of.
  pose proof (prop_or_zero_not_nan (grossIncome input)) as Hg.
  destruct (prop_or_zero (grossIncome input)) as [g| | |],
           (uncappedDeductions_of input) as [u| | |];
    simpl in *; try congruence; try reflexivity; try discriminate.
  all: num_cases; qc_lra.
Qed.

Lemma uncapped_bounds_witness :
  ge (uncappedDeductions
        (calculateProgressiveTax (plain_input 15000 two_brackets))) zero
    = true
  /\ le (deductions
           (calculateProgressiveTax (plain_input 15000 two_brackets)))
        (uncappedDeductions
           (calculateProgressiveTax (plain_input 15000 two_brackets)))
     = true.
Proof. apply uncapped_bounds. discriminate. Defined.

Lemma raw_pension_clean (a : number) :
  exists y, (if isFinite a then a else zero) = Fin y.
Proof. destruct a as [y| | |]; simpl; eexists; reflexivity. Qed.

(** X4. The statutory pension of the result is never [NaN], and it never
    exceeds a cap that is a number. *)
Theorem statutoryPension_capped (input : TaxComputationInput) :
  statutoryPension (calculateProgressiveTax input) <> NaN
  /\ forall c, statutoryPensionAnnualCap input = Some c -> c <> NaN ->
               le (statutoryPension (calculateProgressiveTax input)) c
               = true.
Proof.
  cbn [statutoryPension calculateProgressiveTax].
  split; [apply or_zero_not_nan|].
  intros c Hc Hn. unfold pension_of. cbv zeta. rewrite Hc. cbn [nullish].
  destruct (raw_pension_clean
              (mul (prop_or_zero (grossIncome input))
                   (div (prop_or_zero (statutoryPensionRatePercent input))
                        hundred))) as [y ->].
  destruct c as [c| | |]; try congruence; cbn [min lt].
  - destruct (Qcltb c y) eqn:E; rewrite or_zero_Fin; simpl; qc_lra.
  - rewrite or_zero_Fin. reflexivity.
  - reflexivity.
Qed.

Lemma statutoryPension_capped_witness :
  le (statutoryPension
        (calculateProgressiveTax
           (mkInput (Some (of_Z 20000)) None None [] (Some (of_Z 5))
                    (Some (of_Z 500)))))
     (of_Z 500) = true.
Proof.
  apply (proj2 (statutoryPension_capped
                  (mkInput (Some (of_Z 20000)) None None []
                           (Some (of_Z 5)) (Some (of_Z 500))))).
  - reflexivity.
  - discriminate.
Defined.

(** The raw pension of a gross income of 0, of a rate of 0 or of an
    infinite rate is 0, or is not finite and replaced by 0. *)
Lemma raw_pension_none (g r : number) :
  r <> NaN ->
  g = zero \/ r = zero \/ isFinite r = false ->
  (if isFinite (mul g (div r hundred)) then mul g (div r hundred) else zero)
  = zero.
Proof.
  intros Hr H.
  assert (Hzero : forall y, Fin (0 * y) = zero)
    by (intros y; unfold zero; f_equal; apply Qcmult_0_l).
  assert (Hzero' : forall y, Fin (y * (0 / hundred_qc)) = zero).
  { intros y. unfold zero. f_equal. unfold Qcdiv.
    now rewrite Qcmult_0_l, Qcmult_0_r. }
  destruct r as [r| | |]; try congruence.
  - destruct H as [-> | [H | H]]; [| |discriminate].
    + rewrite div_hundred. cbn [mul zero isFinite]. apply Hzero.
    + rewrite H. change (div zero hundred) with (Fin (0 / hundred_qc)).
      destruct g as [g| | |]; try reflexivity.
      cbn [mul isFinite]. apply Hzero'.
  - change (div PInf hundred) with PInf.
    destruct g as [g| | |]; try reflexivity.
    cbn [mul]. now rewrite isFinite_signed_inf.
  - change (div NInf hundred) with NInf.
    destruct g as [g| | |]; try reflexivity.
    cbn [mul]. now rewrite isFinite_signed_inf.
Qed.

(** X5. There is no statutory pension on a gross income of 0 (or absent,
    or [NaN]), at a rate of 0 (or absent, or [NaN]) or at an infinite
    rate: the function then reports the smaller of 0 and the cap, which is
    0 when there is no cap. *)
Theorem statutoryPension_none (input : TaxComputationInput) :
  prop_or_zero (grossIncome input) = zero
  \/ prop_or_zero (statutoryPensionRatePercent input) = zero
  \/ isFinite (prop_or_zero (statutoryPensionRatePercent input)) = false ->
  statutoryPension (calculateProgressiveTax input)
  = or_zero (min zero (nullish (statutoryPensionAnnualCap input) PInf))
  /\ (statutoryPensionAnnualCap input = None ->
      statutoryPension (calculateProgressiveTax input) = zero).
Proof.
  intros H. cbn [statutoryPension calculateProgressiveTax].
  unfold pension_of. cbv zeta.
  rewrite (raw_pension_none _ _ (prop_or_zero_not_nan _) H).
  split; [reflexivity|]. intros ->. reflexivity.
Qed.

Lemma statutoryPension_none_witness :
  statutoryPension
    (calculateProgressiveTax
       (mkInput (Some (of_Z 20000)) None None [] (Some PInf) None))
  = zero.
Proof.
  apply (proj2 (statutoryPension_none
                  (mkInput (Some (of_Z 20000)) None None [] (Some PInf)
                           None)
                  (or_intror (or_intror eq_refl)))).
  reflexivity.
Defined.

(** X6. An entry is in the breakdown exactly when it is the entry built
    from a bracket of the input that receives a positive slice of the
    taxable income. *)
Theorem breakdown_entries (input : TaxComputationInput)
  (e : BreakdownEntry) :
  In e (breakdown (calculateProgressiveTax input)) <->
  exists b, In b (brackets input)
            /\ received_slice input b = true
            /\ e = entry_of (taxableIncome (calculateProgressiveTax input)) b.
Proof.
  rewrite result_breakdown, in_map_iff.
  cbn [taxableIncome calculateProgressiveTax].
  split.
  - intros (b & <- & Hb). apply filter_In in Hb as [Hin Hr].
    exists b. repeat split; [now apply sorted_brackets_In | assumption].
  - intros (b & Hin & Hr & ->). exists b. split; [reflexivity|].
    apply filter_In. split; [now apply sorted_brackets_In | assumption].
Qed.

Lemma min_positive_bounds (a b : number) :
  gt (min a b) zero = true ->
  le (min a b) a = true /\ le (min a b) b = true.
Proof.
  unfold gt, zero.
  destruct a as [x| | |], b as [y| | |]; simpl; try discriminate;
    try (split; reflexivity);
    try (intros _; split; try reflexivity; apply Qcleb_le, Qcle_refl).
  destruct (Qcltb y x) eqn:E; simpl; intros _; split; qc_lra.
Qed.

(** X7. Every breakdown entry has a positive slice, taxed at the entry's
    rate; the slice is at most the taxable income above the bracket's
    minimum and at most the bracket's width. *)
Theorem breakdown_entry_bounds (input : TaxComputationInput)
  (e : BreakdownEntry) :
  In e (breakdown (calculateProgressiveTax input)) ->
  let taxable := taxableIncome (calculateProgressiveTax input) in
  gt (taxable_at_this_bracket e) zero = true
  /\ tax_at_this_bracket e =
       mul (taxable_at_this_bracket e) (div (entry_tax_rate e) hundred)
  /\ le (taxable_at_this_bracket e)
        (sub taxable (entry_income_bracket_min e)) = true
  /\ le (taxable_at_this_bracket e)
        (sub (nullish (entry_income_bracket_max e) PInf)
             (entry_income_bracket_min e)) = true.
Proof.
  rewrite result_breakdown, in_map_iff.
  intros (b & <- & Hb) taxable. subst taxable.
  apply filter_In in Hb as [_ Hr]. unfold received_slice in Hr.
  cbn [taxableIncome calculateProgressiveTax entry_of
       taxable_at_this_bracket tax_at_this_bracket entry_tax_rate
       entry_income_bracket_min entry_income_bracket_max].
  split; [exact Hr|]. split; [reflexivity|].
  apply min_positive_bounds. exact Hr.
Qed.

Lemma breakdown_entry_bounds_witness :
  let r := calculateProgressiveTax (plain_input 15000 two_brackets) in
  let e := mkEntry (of_Z 10000) None (of_Z 20)
                   (taxableAtThisBracket (of_Z 15000)
                                         (bracket 10000 None 20))
                   (mul (taxableAtThisBracket (of_Z 15000)
                                              (bracket 10000 None 20))
                        (div (of_Z 20) hundred)) in
  gt (taxable_at_this_bracket e) zero = true
  /\ tax_at_this_bracket e =
       mul (taxable_at_this_bracket e) (div (entry_tax_rate e) hundred)
  /\ le (taxable_at_this_bracket e)
        (sub (taxableIncome r) (entry_income_bracket_min e)) = true
  /\ le (taxable_at_this_bracket e)
        (sub (nullish (entry_income_bracket_max e) PInf)
             (entry_income_bracket_min e)) = true.
Proof.
  apply (breakdown_entry_bounds (plain_input 15000 two_brackets)).
  right. left. reflexivity.
Defined.

Lemma sorted_map {A B : Type} (R : A -> A -> Prop) (S : B -> B -> Prop)
  (f : A -> B) (l : list A) :
  (forall a b, R a b -> S (f a) (f b)) ->
  StronglySorted R l -> StronglySorted S (map f l).
Proof.
  intros H. induction 1 as [|x l Hs IH Hx]; simpl; constructor.
  - assumption.
  - apply Forall_map. eapply Forall_impl; [|exact Hx]. intros; now apply H.
Qed.

(** X8. The breakdown has at most one entry per bracket and, when no
    bracket minimum is [NaN], its entries come in ascending order of
    their minimum. *)
Theorem breakdown_ascending (input : TaxComputationInput) :
  (length (breakdown (calculateProgressiveTax input))
   <= length (brackets input))%nat
  /\ (Forall (fun b => income_bracket_min b <> NaN) (brackets input) ->
      StronglySorted
        (fun e1 e2 => le (entry_income_bracket_min e1)
                         (entry_income_bracket_min e2) = true)
        (breakdown (calculateProgressiveTax input))).
Proof.
  rewrite result_breakdown. split.
  - rewrite length_map.
    rewrite (Permutation_length (array_sort_perm (brackets input))).
    apply filter_length_le.
  - intros Hn.
    apply (sorted_map key_le); [intros a b H; exact H|].
    apply sorted_filter. now apply array_sort_sorted.
Qed.

Lemma breakdown_ascending_witness :
  StronglySorted
    (fun e1 e2 => le (entry_income_bracket_min e1)
                     (entry_income_bracket_min e2) = true)
    (breakdown
       (calculateProgressiveTax (plain_input 15000 two_brackets_unordered))).
Proof.
  apply (proj2 (breakdown_ascending
                  (plain_input 15000 two_brackets_unordered))).
  repeat constructor; discriminate.
Defined.

Lemma zero_share (g : number) :
  gt g zero = true -> mul (div zero g) hundred = zero.
Proof.
  unfold gt, zero, hundred, of_Z.
  destruct g as [x| | |]; simpl; try discriminate.
  - intros H. destruct (Qceqb x (Q2Qc 0)) eqn:E; [qc_lra|].
    simpl. apply f_equal. unfold Qcdiv. now rewrite !Qcmult_0_l.
  - intros _. apply f_equal. now rewrite Qcmult_0_l.
Qed.

(** X9. With an empty bracket table nothing is taxed: the tax owed, the
    effective rate and the marginal rate are 0 and the breakdown is empty,
    whatever the other fields. *)
Theorem no_brackets_no_tax (input : TaxComputationInput) :
  brackets input = [] ->
  let r := calculateProgressiveTax input in
  taxOwed r = zero /\ effectiveRate r = zero /\ marginalRate r = zero
  /\ breakdown r = [].
Proof.
  intros Hb r. subst r.
  assert (Ht : taxOwed (calculateProgressiveTax input) = zero).
  { destruct (result_loop input) as (-> & _ & _).
    unfold sorted_brackets. now rewrite Hb. }
  split; [exact Ht|]. split; [|split].
  - rewrite result_effectiveRate, Ht.
    destruct (gt (to_number (grossIncome input)) zero) eqn:E;
      [now apply zero_share | reflexivity].
  - destruct (result_loop input) as (_ & -> & _).
    unfold sorted_brackets. now rewrite Hb.
  - destruct (result_loop input) as (_ & _ & ->).
    unfold sorted_brackets. now rewrite Hb.
Qed.

Lemma no_brackets_no_tax_witness :
  let r := calculateProgressiveTax (plain_input 15000 []) in
  taxOwed r = zero /\ effectiveRate r = zero /\ marginalRate r = zero
  /\ breakdown r = [].
Proof. apply no_brackets_no_tax. reflexivity. Defined.

Lemma taxOwed_plain (input : TaxComputationInput) :
  Forall bracket_plain (brackets input) ->
  taxableIncome (calculateProgressiveTax input) <> PInf ->
  exists x, taxOwed (calculateProgressiveTax input) = Fin x /\ 0 <= x.
Proof.
  intros Hplain Hinf. rewrite result_taxOwed_fold.
  cbn [taxableIncome calculateProgressiveTax] in Hinf.
  destruct (taxableIncome_cases input) as [-> | [H | (t & -> & _)]];
    [|congruence|].
  - rewrite owed_fold_nan. exists 0. split; [reflexivity | apply Qcle_refl].
  - assert (Hsorted : Forall bracket_ok (sorted_brackets input)).
    { apply (Permutation_Forall (array_sort_perm _)).
      now apply brackets_plain_ok. }
    exact (owed_fold_nonneg t _ Hsorted 0).
Qed.

Lemma two_brackets_plain : Forall bracket_plain two_brackets.
Proof.
  repeat constructor;
    eexists; eexists;
    (split; [reflexivity|]); (split; [apply Qcleb_le; reflexivity|]);
    (split; [reflexivity|]); apply Qcleb_le; reflexivity.
Qed.

Lemma share_nonneg (x g : Qc) :
  0 <= x -> 0 < g -> 0 <= x / g * Q2Qc (inject_Z 100).
Proof.
  intros Hx Hg.
  assert (Hd : g * (x / g) = x).
  { apply Qcmult_div_r. intros ->. revert Hg. apply Qcle_not_lt, Qcle_refl. }
  set (d := x / g) in *.
  assert (Hd0 : 0 <= d).
  { apply Qcnot_lt_le. intros Hneg.
    assert (Hc : (0 < this g * - this d)%Q).
    { unfold Qclt in *. simpl in *. apply Qmult_lt_0_compat; lra. }
    qc_to_q. simpl in *. lra. }
  rewrite <- (Qcmult_0_l (Q2Qc (inject_Z 100))).
  apply Qcmult_le_compat_r; [exact Hd0 | apply Qcleb_le; reflexivity].
Qed.

(** X10. When every bracket has a finite start and a finite rate that are
    not negative, the tax owed is not negative, unless the taxable income
    is [+Infinity]. *)
Theorem taxOwed_nonneg (input : TaxComputationInput) :
  Forall bracket_plain (brackets input) ->
  taxableIncome (calculateProgressiveTax input) <> PInf ->
  ge (taxOwed (calculateProgressiveTax input)) zero = true.
Proof.
  intros Hplain Hinf.
  destruct (taxOwed_plain input Hplain Hinf) as (x & -> & Hx).
  unfold ge, zero. simpl. qc_lra.
Qed.

Lemma taxOwed_nonneg_witness :
  ge (taxOwed (calculateProgressiveTax (plain_input 15000 two_brackets)))
     zero = true.
Proof.
  apply taxOwed_nonneg.
  - exact two_brackets_plain.
  - discriminate.
Defined.

(** X14. When every bracket has a finite start and a finite rate that are
    not negative, the effective rate is not negative, unless the taxable
    income is [+Infinity]. *)
Theorem effectiveRate_nonneg (input : TaxComputationInput) :
  Forall bracket_plain (brackets input) ->
  taxableIncome (calculateProgressiveTax input) <> PInf ->
  ge (effectiveRate (calculateProgressiveTax input)) zero = true.
Proof.
  intros Hplain Hinf.
  destruct (taxOwed_plain input Hplain Hinf) as (x & Hx & Hx0).
  rewrite result_effectiveRate, Hx.
  destruct (to_number (grossIncome input)) as [g| | |]; try reflexivity.
  unfold gt, zero. cbn [lt].
  destruct (Qcltb 0 g) eqn:E; [|reflexivity].
  assert (Hg : 0 < g) by qc_lra.
  unfold div. destruct (Qceqb g 0) eqn:E0; [qc_lra|].
  unfold hundred, of_Z. cbn [mul ge le]. apply Qcleb_le.
  now apply share_nonneg.
Qed.

Lemma effectiveRate_nonneg_witness :
  ge (effectiveRate
        (calculateProgressiveTax (plain_input 15000 two_brackets)))
     zero = true.
Proof.
  apply effectiveRate_nonneg.
  - exact two_brackets_plain.
  - discriminate.
Defined.

(** ** The sorted brackets *)

Lemma sort_insert_least (x : TaxBracket) (l : list TaxBracket) :
  key_number x -> Forall key_number l -> Forall (key_le x) l ->
  sort_insert bracket_comparator x l = x :: l.
Proof.
  intros Hx Hn Hle. rewrite sort_insert_key.
  destruct l as [|y l]; [reflexivity|].
  inversion Hn; inversion Hle; subst. unfold key_le in *.
  replace (lt (income_bracket_min y) (income_bracket_min x)) with false;
    [reflexivity|].
  symmetry. apply negb_true_iff. now rewrite <- le_not_gt.
Qed.

Lemma array_sort_sorted_input (l : list TaxBracket) :
  Forall key_number l -> StronglySorted key_le l ->
  array_sort bracket_comparator l = l.
Proof.
  intros Hn Hs. induction Hs as [|x l Hs IH Hx]; [reflexivity|].
  inversion Hn; subst. cbn [array_sort fold_right].
  change (fold_right (sort_insert bracket_comparator) [] l)
    with (array_sort bracket_comparator l).
  rewrite IH by assumption. now apply sort_insert_least.
Qed.

(** X11. The brackets the loop walks through are a permutation of the
    input's brackets; when no minimum is [NaN] they ascend by minimum,
    and brackets that already come in ascending order, ties included,
    are walked through in the order given. *)
Theorem sorted_brackets_spec (input : TaxComputationInput) :
  Permutation (brackets input) (sorted_brackets input)
  /\ (Forall (fun b => income_bracket_min b <> NaN) (brackets input) ->
      StronglySorted key_le (sorted_brackets input)
      /\ (StronglySorted key_le (brackets input) ->
          sorted_brackets input = brackets input)).
Proof.
  split; [apply array_sort_perm|]. intros Hn. split.
  - now apply array_sort_sorted.
  - intros Hs. now apply array_sort_sorted_input.
Qed.

Lemma sorted_brackets_spec_witness :
  StronglySorted key_le
    (sorted_brackets (plain_input 15000 two_brackets_unordered))
  /\ sorted_brackets (plain_input 15000 two_brackets)
     = brackets (plain_input 15000 two_brackets).
Proof.
  split.
  - apply (proj2 (sorted_brackets_spec
                    (plain_input 15000 two_brackets_unordered))).
    repeat constructor; discriminate.
  - apply (proj2 (sorted_brackets_spec (plain_input 15000 two_brackets))).
    + repeat constructor; discriminate.
    + repeat constructor.
Defined.

(** ** Bracket tables without gaps or overlaps *)

Lemma contiguous_mins (m : Qc) (l : list TaxBracket) :
  contiguous_from m l ->
  Forall (fun b => exists x, income_bracket_min b = Fin x /\ m <= x) l.
Proof.
  induction 1 as [m r | m hi r l Hlt Hc IH].
  - constructor; [|constructor]. exists m. split; [reflexivity|].
    apply Qcle_refl.
  - constructor.
    + exists m. split; [reflexivity | apply Qcle_refl].
    + eapply Forall_impl; [|exact IH].
      intros b (x & Hx & Hle). exists x. split; [assumption|]. qc_lra.
Qed.

Lemma contiguous_key_number (m : Qc) (l : list TaxBracket) :
  contiguous_from m l -> Forall key_number l.
Proof.
  intros H. eapply Forall_impl; [|exact (contiguous_mins m l H)].
  intros b (x & Hx & _). unfold key_number. rewrite Hx. discriminate.
Qed.

Lemma contiguous_strict (m : Qc) (l : list TaxBracket) :
  contiguous_from m l -> StronglySorted key_lt l.
Proof.
  induction 1 as [m r | m hi r l Hlt Hc IH].
  - repeat constructor.
  - constructor; [assumption|].
    eapply Forall_impl; [|exact (contiguous_mins hi l Hc)].
    intros b (x & Hx & Hle). unfold key_lt. rewrite Hx. simpl. qc_lra.
Qed.

Lemma strict_sorted_NoDup (l : list TaxBracket) :
  StronglySorted key_lt l -> NoDup (map income_bracket_min l).
Proof.
  induction 1 as [|x l Hs IH Hx]; simpl; constructor; [|assumption].
  intros Hin. apply in_map_iff in Hin as (y & Ey & Hy).
  pose proof (proj1 (Forall_forall _ _) Hx y Hy) as Hlt.
  unfold key_lt in Hlt. rewrite Ey, lt_irrefl in Hlt. discriminate.
Qed.

Lemma strict_sorted_weaken (l : list TaxBracket) :
  StronglySorted key_lt l -> StronglySorted key_le l.
Proof.
  induction 1 as [|x l Hs IH Hx]; constructor; [assumption|].
  eapply Forall_impl; [|exact Hx]. intros y Hy. now apply lt_le.
Qed.

(** A contiguous table is recovered by the sort from any order of its
    brackets. *)
Lemma sorted_table (m : Qc) (table : list TaxBracket)
  (input : TaxComputationInput) :
  contiguous_from m table -> Permutation table (brackets input) ->
  sorted_brackets input = table.
Proof.
  intros Hc Hp. unfold sorted_brackets.
  pose proof (contiguous_key_number m table Hc) as Hn.
  pose proof (contiguous_strict m table Hc) as Hs.
  rewrite (array_sort_permutation table (brackets input) Hp Hn
             (strict_sorted_NoDup table Hs)).
  apply array_sort_sorted_input; [assumption|].
  now apply strict_sorted_weaken.
Qed.

(** A positive slice is what lies above the bracket's start while the
    taxable income [t] is within the bracket, and the bracket's width once
    [t] has reached the bracket's end. *)
Lemma positive_slice_cases (t lo : number) (mx : option number) :
  gt (min (sub t lo) (sub (nullish mx PInf) lo)) zero = true ->
  match mx with
  | None => min (sub t lo) (sub (nullish mx PInf) lo) = sub t lo
  | Some hi =>
      (le t hi = true ->
       min (sub t lo) (sub (nullish mx PInf) lo) = sub t lo)
      /\ (le hi t = true ->
          min (sub t lo) (sub (nullish mx PInf) lo) = sub hi lo)
  end.
Proof.
  unfold gt, zero.
  destruct mx as [hi|]; cbn [nullish].
  - destruct t as [t| | |], lo as [m| | |], hi as [h| | |]; simpl;
      try discriminate; intros H; split; intros H'; try discriminate;
      try reflexivity; revert H H'; num_cases; intros;
      try reflexivity; try discriminate; f_equal; qc_lra.
  - destruct t as [t| | |], lo as [m| | |]; simpl;
      try discriminate; reflexivity.
Qed.

(** X12. An entry of the breakdown for a bracket without an upper bound,
    or with an upper bound the taxable income does not exceed, holds as
    its slice the taxable income less the bracket's start; an entry for a
    bracket whose upper bound the taxable income has reached holds the
    bracket's end less its start. *)
Theorem breakdown_slices (input : TaxComputationInput)
  (e : BreakdownEntry) :
  In e (breakdown (calculateProgressiveTax input)) ->
  let taxable := taxableIncome (calculateProgressiveTax input) in
  let lo := entry_income_bracket_min e in
  match entry_income_bracket_max e with
  | None => taxable_at_this_bracket e = sub taxable lo
  | Some hi =>
      (le taxable hi = true -> taxable_at_this_bracket e = sub taxable lo)
      /\ (le hi taxable = true -> taxable_at_this_bracket e = sub hi lo)
  end.
Proof.
  rewrite result_breakdown, in_map_iff.
  intros (b & <- & Hb). cbv zeta.
  apply filter_In in Hb as [_ Hr]. unfold received_slice in Hr.
  cbn [taxableIncome calculateProgressiveTax entry_of
       taxable_at_this_bracket entry_income_bracket_min
       entry_income_bracket_max].
  unfold taxableAtThisBracket in *. cbv zeta in *.
  exact (positive_slice_cases _ _ _ Hr).
Qed.

Lemma breakdown_slices_witness :
  let r := calculateProgressiveTax (plain_input 15000 two_brackets) in
  let e := mkEntry (of_Z 0) (Some (of_Z 10000)) (of_Z 10)
                   (taxableAtThisBracket (of_Z 15000)
                      (bracket 0 (Some 10000%Z) 10))
                   (mul (taxableAtThisBracket (of_Z 15000)
                           (bracket 0 (Some 10000%Z) 10))
                        (div (of_Z 10) hundred)) in
  taxable_at_this_bracket e = sub (of_Z 10000) (of_Z 0).
Proof.
  intros r e.
  apply (proj2 (breakdown_slices (plain_input 15000 two_brackets) e
                  (or_introl eq_refl))).
  reflexivity.
Defined.

Lemma contiguous_shape (m : Qc) (l : list TaxBracket) :
  contiguous_from m l ->
  Forall (fun b => exists lo,
            income_bracket_min b = Fin lo
            /\ (income_bracket_max b = None
                \/ exists hi, income_bracket_max b = Some (Fin hi)
                              /\ lo < hi)) l.
Proof.
  induction 1 as [m r | m hi r l Hlt Hc IH].
  - constructor; [|constructor]. exists m. split; [reflexivity|]. now left.
  - constructor; [|exact IH]. exists m. split; [reflexivity|].
    right. now exists hi.
Qed.

(** A bracket that ends above its start receives a slice exactly when
    the taxable income exceeds its start. *)
Lemma proper_bracket_slice (t : number) (b : TaxBracket) (lo : Qc) :
  income_bracket_min b = Fin lo ->
  income_bracket_max b = None
  \/ (exists hi, income_bracket_max b = Some (Fin hi) /\ lo < hi) ->
  gt (taxableAtThisBracket t b) zero = lt (income_bracket_min b) t.
Proof.
  intros Hlo Hmax. unfold taxableAtThisBracket, gt, zero. cbv zeta.
  rewrite Hlo.
  destruct Hmax as [-> | (hi & -> & Hlt)]; cbn [nullish];
    destruct t as [t| | |]; simpl; try reflexivity;
    repeat match goal with
           | |- context [Qcltb ?x ?y] => destruct (Qcltb x y) eqn:?
           end; simpl; first [reflexivity | exfalso; qc_lra].
Qed.

(** X13. Over a table without gaps or overlaps, given in any order, the
    breakdown lists the brackets that start below the taxable income, in
    the table's order: a prefix of the table. *)
Theorem breakdown_of_table (input : TaxComputationInput)
  (table : list TaxBracket) (m : Qc) :
  contiguous_from m table ->
  Permutation table (brackets input) ->
  let taxable := taxableIncome (calculateProgressiveTax input) in
  breakdown (calculateProgressiveTax input) =
  map (entry_of taxable)
      (filter (fun b => lt (income_bracket_min b) taxable) table).
Proof.
  intros Hc Hp. cbv zeta.
  rewrite result_breakdown, (sorted_table m table input Hc Hp).
  cbn [taxableIncome calculateProgressiveTax]. f_equal.
  apply filter_ext_in. intros b Hb. unfold received_slice.
  destruct (proj1 (Forall_forall _ _) (contiguous_shape m table Hc) b Hb)
    as (lo & Hlo & Hmax).
  now apply (proper_bracket_slice _ b lo).
Qed.

Lemma two_brackets_contiguous : contiguous_from 0 two_brackets.
Proof.
  apply (contiguous_step 0 (Q2Qc (inject_Z 10000)) (of_Z 10)).
  - apply Qcltb_lt. reflexivity.
  - apply contiguous_top.
Qed.

Lemma breakdown_of_table_witness :
  let input := plain_input 5000 two_brackets_unordered in
  breakdown (calculateProgressiveTax input) =
  map (entry_of (taxableIncome (calculateProgressiveTax input)))
      (filter (fun b => lt (income_bracket_min b)
                           (taxableIncome (calculateProgressiveTax input)))
              two_brackets).
Proof.
  apply (breakdown_of_table (plain_input 5000 two_brackets_unordered)
           two_brackets 0).
  - exact two_brackets_contiguous.
  - apply perm_swap.
Defined.

(** In a contiguous table, another bracket starts at or below a given
    bracket's minimum, or at or above its maximum. *)
Lemma contiguous_apart (m0 : Qc) (l : list TaxBracket) :
  contiguous_from m0 l ->
  forall b b' m m',
    In b l -> In b' l ->
    income_bracket_min b = Fin m -> income_bracket_min b' = Fin m' ->
    m' <= m
    \/ exists hi, income_bracket_max b = Some (Fin hi) /\ hi <= m'.
Proof.
  induction 1 as [m0 r | m0 hi0 r l Hlt Hc IH];
    intros b b' m m' Hb Hb' Em Em'.
  - destruct Hb as [<- | []], Hb' as [<- | []].
    simpl in *. left. injection Em as <-. injection Em' as <-.
    apply Qcle_refl.
  - pose proof (contiguous_mins hi0 l Hc) as Hmins.
    destruct Hb as [<- | Hb], Hb' as [<- | Hb'].
    + simpl in *. left. injection Em as <-. injection Em' as <-.
      apply Qcle_refl.
    + right. exists hi0. split; [reflexivity|].
      destruct (proj1 (Forall_forall _ _) Hmins b' Hb') as (x & Ex & Hx).
      rewrite Em' in Ex. now injection Ex as <-.
    + left. simpl in Em'. injection Em' as <-.
      destruct (proj1 (Forall_forall _ _) Hmins b Hb) as (x & Ex & Hx).
      rewrite Em in Ex. injection Ex as <-. qc_lra.
    + now apply (IH b b' m m').
Qed.

Lemma holds_income_touched (t : Qc) (b : TaxBracket) :
  holds_income t b ->
  gt (taxableAtThisBracket (Fin t) b) zero = true.
Proof.
  intros (m & Em & Hm & Hmax). unfold taxableAtThisBracket, gt, zero.
  rewrite Em. destruct Hmax as [-> | (hi & -> & Hhi)]; simpl.
  - qc_lra.
  - num_cases; qc_lra.
Qed.

Lemma positive_slice_above_min (t : Qc) (b : TaxBracket) (m : Qc) :
  income_bracket_min b = Fin m ->
  gt (taxableAtThisBracket (Fin t) b) zero = true -> m < t.
Proof.
  intros Em H. rewrite <- touched_slice_positive in H.
  unfold touched in H. apply andb_true_iff in H as [H _].
  rewrite Em in H. now apply Qcltb_lt in H.
Qed.

(** X15. Over a table without gaps or overlaps, in any order, the
    marginal rate is the rate of the bracket the finite taxable income
    falls into: the bracket it exceeds the minimum of without exceeding
    the maximum. *)
Theorem marginalRate_of_table (input : TaxComputationInput)
  (table : list TaxBracket) (m0 t : Qc) (b : TaxBracket) :
  contiguous_from m0 table ->
  Permutation table (brackets input) ->
  taxableIncome (calculateProgressiveTax input) = Fin t ->
  In b table -> holds_income t b ->
  marginalRate (calculateProgressiveTax input) = tax_rate b.
Proof.
  intros Hc Hp Ht Hin Hb.
  cbn [taxableIncome calculateProgressiveTax] in Ht.
  pose proof (contiguous_key_number m0 table Hc) as Hn.
  pose proof (strict_sorted_NoDup table (contiguous_strict m0 table Hc))
    as Hd.
  assert (Hn' : Forall key_number (brackets input))
    by now apply (Permutation_Forall Hp).
  assert (Hd' : NoDup (map income_bracket_min (brackets input))).
  { apply (Permutation_NoDup (l := map income_bracket_min table));
      [now apply Permutation_map | assumption]. }
  assert (Hin' : In b (brackets input))
    by now apply (Permutation_in _ Hp).
  assert (Hr : received_slice input b = true).
  { unfold received_slice. rewrite Ht. now apply holds_income_touched. }
  destruct (marginalRate_greatest input Hn')
    as (b1 & Hin1 & Hr1 & Hm1 & Hg1); [now exists b|].
  rewrite Hm1. f_equal.
  apply (NoDup_map_injective income_bracket_min (brackets input));
    try assumption.
  apply le_antisym; [|now apply Hg1].
  destruct Hb as (m & Em & Hmt & Hmax).
  assert (Hin1t : In b1 table)
    by now apply (Permutation_in _ (Permutation_sym Hp)).
  destruct (proj1 (Forall_forall _ _) (contiguous_mins m0 table Hc)
              b1 Hin1t) as (m1 & Em1 & _).
  unfold received_slice in Hr1. rewrite Ht in Hr1.
  pose proof (positive_slice_above_min t b1 m1 Em1 Hr1) as Hm1t.
  rewrite Em, Em1. apply Qcleb_le.
  destruct (contiguous_apart m0 table Hc b b1 m m1 Hin Hin1t Em Em1)
    as [Hle | (hi & Ehi & Hhi)]; [exact Hle|].
  destruct Hmax as [E | (hi' & E & Hhi')]; rewrite E in Ehi;
    [discriminate|].
  injection Ehi as <-. qc_lra.
Qed.

Lemma marginalRate_of_table_witness :
  marginalRate
    (calculateProgressiveTax (plain_input 15000 two_brackets_unordered))
  = tax_rate (bracket 10000 None 20).
Proof.
  apply (marginalRate_of_table (plain_input 15000 two_brackets_unordered)
           two_brackets 0 (Q2Qc (inject_Z 15000))).
  - exact two_brackets_contiguous.
  - apply perm_swap.
  - num_eq.
  - right. left. reflexivity.
  - exists (Q2Qc (inject_Z 10000)). split; [reflexivity|].
    split; [apply Qcltb_lt; reflexivity | left; reflexivity].
Defined.

(** ** The tax calculator page *)

(** X16. The standard deduction [calculateTax] uses is that of the first
    rule, unless there is no rule or that value is 0 or [NaN]: then it is
    13850.  It is never 0 and never [NaN]. *)
Theorem calculateTax_standardDeduction (parsedGross parsedAdditional : number)
  (taxRules : list TaxRule) :
  let used :=
    calc_standardDeduction
      (calculateTax parsedGross parsedAdditional taxRules) in
  used <> zero /\ used <> NaN
  /\ (taxRules = [] -> used = of_Z 13850)
  /\ (forall r l, taxRules = r :: l ->
        (standard_deduction r = zero \/ standard_deduction r = NaN ->
         used = of_Z 13850)
        /\ (standard_deduction r <> zero -> standard_deduction r <> NaN ->
            used = standard_deduction r)).
Proof.
  cbv zeta. cbn [calc_standardDeduction calculateTax].
  assert (Hz : of_Z 13850 <> zero).
  { intros H. apply (f_equal (lt zero)) in H. vm_compute in H.
    discriminate. }
  assert (Ht : forall a, truthy a = true -> a <> zero /\ a <> NaN).
  { intros a Ha. split; intros ->; vm_compute in Ha; discriminate. }
  assert (Hf : forall a, truthy a = false -> a = zero \/ a = NaN).
  { intros [x| | |] Ha; simpl in Ha; try discriminate; [|now right].
    left. apply negb_false_iff, Qceqb_eq in Ha. now subst. }
  split; [|split; [|split]].
  - destruct taxRules as [|r l]; simpl; [exact Hz|].
    destruct (truthy (standard_deduction r)) eqn:E; [|exact Hz].
    now apply Ht.
  - destruct taxRules as [|r l]; simpl; [discriminate|].
    destruct (truthy (standard_deduction r)) eqn:E; [|discriminate].
    now apply Ht.
  - intros ->. reflexivity.
  - intros r l ->. simpl.
    destruct (truthy (standard_deduction r)) eqn:E; split.
    + intros [H | H]; destruct (Ht _ E); congruence.
    + reflexivity.
    + reflexivity.
    + intros H1 H2. destruct (Hf _ E); congruence.
Qed.

Lemma calculateTax_standardDeduction_witness :
  calc_standardDeduction (calculateTax (of_Z 50000) NaN []) = of_Z 13850
  /\ calc_standardDeduction
       (calculateTax (of_Z 50000) NaN
                     [mkTaxRule zero None (of_Z 10) zero]) = of_Z 13850
  /\ calc_standardDeduction
       (calculateTax (of_Z 50000) NaN
                     [mkTaxRule zero None (of_Z 10) (of_Z 14600)])
     = of_Z 14600.
Proof.
  split; [|split].
  - apply (calculateTax_standardDeduction (of_Z 50000) NaN []).
    reflexivity.
  - refine (proj1 (proj2 (proj2 (proj2
              (calculateTax_standardDeduction (of_Z 50000) NaN
                 [mkTaxRule zero None (of_Z 10) zero]))) _ _ eq_refl) _).
    left. reflexivity.
  - refine (proj2 (proj2 (proj2 (proj2
              (calculateTax_standardDeduction (of_Z 50000) NaN
                 [mkTaxRule zero None (of_Z 10) (of_Z 14600)]))) _ _
              eq_refl) _ _).
    + intros H. apply (f_equal (lt zero)) in H. vm_compute in H.
      discriminate.
    + discriminate.
Defined.

Lemma or_zero_finite (a : number) :
  a <> PInf -> a <> NInf -> exists x, or_zero a = Fin x.
Proof.
  intros Hp Hn. destruct a as [x| | |]; try congruence.
  - exists x. apply or_zero_Fin.
  - exists 0. reflexivity.
Qed.

Lemma standardDeduction_of_rules_finite (taxRules : list TaxRule) :
  (forall r l, taxRules = r :: l ->
               standard_deduction r <> PInf /\ standard_deduction r <> NInf)
  -> exists x, standardDeduction_of_rules taxRules = Fin x.
Proof.
  intros H. destruct taxRules as [|r l]; simpl.
  - eexists; reflexivity.
  - destruct (H r l eq_refl) as [Hp Hn].
    destruct (standard_deduction r) as [x| | |]; simpl; try congruence.
    + destruct (negb (Qceqb x 0)); eexists; reflexivity.
    + eexists; reflexivity.
Qed.

(** X17. In [calculateTax], when neither of the two parsed amounts nor
    the first rule's standard deduction is an infinity, the stored
    calculation has a taxable income of at least 0, deductions of at most
    the gross income, a taxable income that is the gross income less the
    deductions, and a statutory pension of 5% of the gross income, each as
    the function computes it. *)
Theorem calculateTax_invariants (parsedGross parsedAdditional : number)
  (taxRules : list TaxRule) :
  parsedGross <> PInf -> parsedGross <> NInf ->
  parsedAdditional <> PInf -> parsedAdditional <> NInf ->
  (forall r l, taxRules = r :: l ->
               standard_deduction r <> PInf /\ standard_deduction r <> NInf)
  ->
  let c := calculateTax parsedGross parsedAdditional taxRules in
  ge (calc_taxableIncome c) zero = true
  /\ le (calc_deductions c) (calc_grossIncome c) = true
  /\ calc_taxableIncome c = sub (calc_grossIncome c) (calc_deductions c)
  /\ calc_statutoryPension c =
       mul (calc_grossIncome c) (div (of_Z 5) hundred).
Proof.
  intros Hg1 Hg2 Ha1 Ha2 Hs c. subst c.
  destruct (or_zero_finite parsedGross Hg1 Hg2) as [g Eg].
  destruct (or_zero_finite parsedAdditional Ha1 Ha2) as [a Ea].
  destruct (standardDeduction_of_rules_finite taxRules Hs) as [s Es].
  set (input := calculateTax_input parsedGross parsedAdditional taxRules).
  assert (Hgross : prop_or_zero (grossIncome input) = Fin g).
  { subst input. cbn [grossIncome calculateTax_input prop_or_zero].
    rewrite Eg. apply or_zero_Fin. }
  assert (Hu : uncappedDeductions_of input <> NaN).
  { apply uncappedDeductions_not_nan; subst input;
      cbn [standardDeduction additionalDeductions
           statutoryPensionAnnualCap calculateTax_input];
      rewrite ?Es, ?Ea; split; discriminate. }
  cbn [calculateTax calc_taxableIncome calc_deductions calc_grossIncome
       calc_statutoryPension].
  fold input.
  cbn [taxableIncome deductions statutoryPension calculateProgressiveTax].
  unfold taxableIncome_of, totalDeductions_of.
  rewrite Hgross, Eg.
  destruct (deductions_finite_gross g _ Hu) as [Hd Ht].
  split; [exact Ht|]. split; [exact Hd|]. split.
  - apply clamp_never_acts.
  - unfold pension_of. cbv zeta. rewrite Hgross. subst input.
    cbn [statutoryPensionRatePercent statutoryPensionAnnualCap
         calculateTax_input nullish].
    change (prop_or_zero (Some (of_Z 5))) with (of_Z 5).
    change (of_Z 5) with (Fin (Q2Qc (inject_Z 5))).
    rewrite div_hundred. cbn [mul isFinite min lt]. apply or_zero_Fin.
Qed.

Lemma calculateTax_invariants_witness :
  let c := calculateTax (of_Z 50000) NaN
                        [mkTaxRule zero None (of_Z 10) (of_Z 14600)] in
  ge (calc_taxableIncome c) zero = true
  /\ le (calc_deductions c) (calc_grossIncome c) = true
  /\ calc_taxableIncome c = sub (calc_grossIncome c) (calc_deductions c)
  /\ calc_statutoryPension c =
       mul (calc_grossIncome c) (div (of_Z 5) hundred).
Proof.
  apply calculateTax_invariants; try discriminate.
  intros r l H. injection H as <- _. split; discriminate.
Defined.

(** ** The dashboard *)

Lemma sum_numbers_snoc (l : list number) (x : number) :
  sum_numbers (l ++ [x]) = add (sum_numbers l) x.
Proof. unfold sum_numbers. now rewrite fold_left_app. Qed.

Section StringMaps.
Context {V : Type}.

Lemma map_get_keys (k : string) (m : StringMap V) :
  map_get k m <> None <-> In k (map fst m).
Proof.
  induction m as [|[k' v] m IH]; simpl.
  - split; [congruence | intros []].
  - destruct (String.eqb k' k) eqn:E.
    + apply String.eqb_eq in E. split; [now left | discriminate].
    + apply String.eqb_neq in E. rewrite IH. split; [now right|].
      intros [H | H]; [congruence | assumption].
Qed.

Lemma map_set_known_keys (k : string) (v e : V) (m : StringMap V) :
  map_get k m = Some e -> map fst (map_set k v m) = map fst m.
Proof.
  induction m as [|[k' w] m IH]; simpl; [discriminate|].
  destruct (String.eqb k' k) eqn:E; simpl; [reflexivity|].
  intros H. now rewrite IH.
Qed.

Lemma map_set_new (k : string) (v : V) (m : StringMap V) :
  map_get k m = None -> map_set k v m = m ++ [(k, v)].
Proof.
  induction m as [|[k' w] m IH]; simpl; [reflexivity|].
  destruct (String.eqb k' k) eqn:E; [discriminate|].
  intros H. now rewrite IH.
Qed.

Lemma map_get_In (k : string) (e : V) (m : StringMap V) :
  map_get k m = Some e -> In (k, e) m.
Proof.
  induction m as [|[k' w] m IH]; simpl; [discriminate|].
  destruct (String.eqb k' k) eqn:E.
  - apply String.eqb_eq in E. intros H. injection H as ->. subst.
    now left.
  - intros H. right. now apply IH.
Qed.

Lemma map_set_In (k : string) (v : V) (m : StringMap V) (p : string * V) :
  In p (map_set k v m) -> p = (k, v) \/ In p m.
Proof.
  induction m as [|[k' w] m IH]; simpl.
  - intros [<- | []]. now left.
  - destruct (String.eqb k' k) eqn:E; simpl.
    + apply String.eqb_eq in E. subst.
      intros [<- | H]; [now left | right; now right].
    + intros [<- | H]; [right; now left|].
      destruct (IH H); [now left | right; now right].
Qed.

(** Reading a key after a write: the written value for the written key,
    what was there for any other. *)
Lemma map_get_set (k c : string) (v : V) (m : StringMap V) :
  map_get c (map_set k v m) = if String.eqb k c then Some v else map_get c m.
Proof.
  induction m as [|[k' w] m IH]; cbn [map_set map_get].
  - reflexivity.
  - destruct (String.eqb k' k) eqn:E; cbn [map_get].
    + apply String.eqb_eq in E. subst k'.
      destruct (String.eqb k c); reflexivity.
    + rewrite IH. destruct (String.eqb k' c) eqn:E'; [|reflexivity].
      apply String.eqb_eq in E'. subst k'. now rewrite String.eqb_sym, E.
Qed.

Lemma map_get_unique (c : string) (v : V) (m : StringMap V) :
  NoDup (map fst m) -> In (c, v) m -> map_get c m = Some v.
Proof.
  induction m as [|[k w] m IH]; cbn [map fst map_get]; [intros _ []|].
  intros Hd [H | H].
  - injection H as -> ->. now rewrite String.eqb_refl.
  - inversion Hd as [|? ? Hk Hd']; subst.
    destruct (String.eqb k c) eqn:E; [|now apply IH].
    apply String.eqb_eq in E. subst k. exfalso. apply Hk.
    apply in_map_iff. now exists (c, v).
Qed.
End StringMaps.

Lemma months_init_ok : months_ok months_init.
Proof. split; [reflexivity | repeat constructor]. Qed.

Lemma valid_month_label (i : nat) :
  (i < 12)%nat <-> exists label, nth_error MONTH_LABELS i = Some label.
Proof.
  split.
  - intros H. destruct (nth_error MONTH_LABELS i) eqn:E; [eauto|].
    apply nth_error_None in E. simpl in E. lia.
  - intros (label & H).
    apply (proj1 (nth_error_Some MONTH_LABELS i)). congruence.
Qed.

Lemma month_step_ok (m m' : StringMap MonthEntry)
  (t : DashboardTransaction) :
  months_ok m -> month_step m t = Some m' -> months_ok m'.
Proof.
  intros [Hk He] Hs. unfold month_step in Hs.
  destruct (dash_month t) as [i|]; [|discriminate].
  destruct (nth_error MONTH_LABELS i) as [label|]; [|discriminate].
  destruct (map_get label m) as [entry|] eqn:Eg; [|discriminate].
  injection Hs as <-.
  pose proof (map_get_In _ _ _ Eg) as Hin.
  pose proof (proj1 (Forall_forall _ _) He _ Hin) as Hm. simpl in Hm.
  split.
  - now rewrite (map_set_known_keys _ _ _ _ Eg).
  - apply Forall_forall. intros p Hp.
    apply map_set_In in Hp as [-> | Hp].
    + simpl. destruct (dash_type t); exact Hm.
    + now apply (proj1 (Forall_forall _ _) He).
Qed.

Lemma months_forEach_ok (l : list DashboardTransaction) :
  forall m m',
    months_ok m -> months_forEach m l = Some m' -> months_ok m'.
Proof.
  induction l as [|t l IH]; intros m m' Hok Hf; cbn [months_forEach] in Hf.
  - now injection Hf as <-.
  - destruct (month_step m t) as [m1|] eqn:Es; [|discriminate].
    exact (IH m1 m' (month_step_ok m m1 t Hok Es) Hf).
Qed.

(** X18. Whenever [monthlyData] is built it has the twelve months in
    calendar order, whatever the transactions. *)
Theorem monthlyData_months (transactions : list DashboardTransaction)
  (rows : list MonthEntry) :
  monthlyData transactions = Some rows -> map month rows = MONTH_LABELS.
Proof.
  unfold monthlyData. intros H.
  destruct (months_forEach months_init transactions) as [m|] eqn:E;
    [|discriminate].
  injection H as <-.
  destruct (months_forEach_ok _ _ _ months_init_ok E) as [Hk He].
  rewrite <- Hk. unfold map_values. rewrite !map_map.
  apply map_ext_in. intros p Hp.
  now apply (proj1 (Forall_forall _ _) He).
Qed.

Lemma monthlyData_months_witness :
  exists rows,
    monthlyData
      [mkDashboardTransaction (of_Z 10) income "travel" (Some 3%nat)]
    = Some rows
    /\ map month rows = MONTH_LABELS.
Proof.
  eexists. split; [reflexivity|].
  apply (monthlyData_months
           [mkDashboardTransaction (of_Z 10) income "travel" (Some 3%nat)]).
  reflexivity.
Defined.

(** One more transaction adds its amount to the sum of its kind in its
    month, and leaves every other sum as it is. *)
Lemma month_sum_snoc (kind : DashboardTransaction -> bool) (i : nat)
  (l : list DashboardTransaction) (t : DashboardTransaction) :
  month_sum kind i (l ++ [t]) =
  if kind t && in_month i t
  then add (month_sum kind i l) (dash_amount t)
  else month_sum kind i l.
Proof.
  unfold month_sum. rewrite filter_app. cbn [filter].
  destruct (kind t && in_month i t).
  - rewrite map_app. cbn [map]. apply sum_numbers_snoc.
  - now rewrite app_nil_r.
Qed.

Lemma months_of_nil : months_of [] = months_init.
Proof. reflexivity. Qed.

(** A step of the loop takes the map of months after [l] to the map of
    months after [l ++ [t]]. *)
Lemma month_step_months_of (l : list DashboardTransaction)
  (t : DashboardTransaction) (i : nat) :
  dash_month t = Some i -> (i < 12)%nat ->
  month_step (months_of l) t = Some (months_of (l ++ [t])).
Proof.
  intros Hm Hi. unfold month_step. rewrite Hm.
  unfold months_of, month_row. cbn [seq map].
  rewrite !month_sum_snoc. unfold in_month, is_income, is_expense.
  rewrite Hm.
  generalize (month_sum (fun t => match dash_type t with
                                  | income => true | expense => false end))
    as inc.
  generalize (month_sum (fun t => match dash_type t with
                                  | expense => true | income => false end))
    as exp.
  intros exp inc.
  do 12 (destruct i as [|i];
         [destruct (dash_type t); reflexivity|]).
  lia.
Qed.

Lemma months_forEach_months_of (l : list DashboardTransaction) :
  forall done m,
    months_forEach (months_of done) l = Some m -> m = months_of (done ++ l).
Proof.
  induction l as [|t l IH]; intros done m Hf; cbn [months_forEach] in Hf.
  - injection Hf as <-. now rewrite app_nil_r.
  - destruct (month_step (months_of done) t) as [m1|] eqn:Es;
      [|discriminate].
    assert (Hv : valid_month t).
    { unfold valid_month. unfold month_step in Es.
      destruct (dash_month t) as [i|]; [|discriminate].
      exists i. split; [reflexivity|]. apply valid_month_label.
      destruct (nth_error MONTH_LABELS i); [eauto | discriminate]. }
    destruct Hv as (i & Hm & Hi).
    rewrite (month_step_months_of done t i Hm Hi) in Es.
    injection Es as <-.
    rewrite (IH _ _ Hf), <- app_assoc. reflexivity.
Qed.

(** X19. Whenever [monthlyData] is built, the row of each month holds
    the amounts of that month's income transactions and those of its
    other transactions, each added up from 0 in the order of the
    transactions; the dashboard's totals add these twelve sums up from 0
    in calendar order, and the net profit is their difference. *)
Theorem monthlyData_sums (transactions : list DashboardTransaction)
  (rows : list MonthEntry) :
  monthlyData transactions = Some rows ->
  rows = map (month_row transactions) (seq 0 12)
  /\ dashboard_totalIncome rows =
       sum_numbers
         (map (fun i => month_sum is_income i transactions) (seq 0 12))
  /\ dashboard_totalExpenses rows =
       sum_numbers
         (map (fun i => month_sum is_expense i transactions) (seq 0 12))
  /\ dashboard_netProfit rows =
       sub (sum_numbers
              (map (fun i => month_sum is_income i transactions)
                   (seq 0 12)))
           (sum_numbers
              (map (fun i => month_sum is_expense i transactions)
                   (seq 0 12))).
Proof.
  unfold monthlyData. intros H.
  destruct (months_forEach months_init transactions) as [m|] eqn:E;
    [|discriminate].
  injection H as <-.
  rewrite <- months_of_nil in E.
  apply months_forEach_months_of in E. cbn [app] in E. subst m.
  assert (Hrows : map_values (months_of transactions)
                  = map (month_row transactions) (seq 0 12)).
  { unfold map_values, months_of. rewrite map_map. reflexivity. }
  rewrite Hrows. unfold dashboard_netProfit, dashboard_totalIncome,
    dashboard_totalExpenses. rewrite !map_map.
  repeat split.
Qed.

Lemma monthlyData_sums_witness :
  exists rows,
    monthlyData example_transactions = Some rows
    /\ rows = map (month_row example_transactions) (seq 0 12).
Proof.
  eexists. split; [reflexivity|].
  apply (monthlyData_sums example_transactions). reflexivity.
Defined.

Lemma month_step_defined (m : StringMap MonthEntry)
  (t : DashboardTransaction) :
  months_ok m -> (month_step m t <> None <-> valid_month t).
Proof.
  intros [Hk _]. unfold month_step, valid_month. split.
  - destruct (dash_month t) as [i|]; [|congruence].
    destruct (nth_error MONTH_LABELS i) as [label|] eqn:E; [|congruence].
    intros _. exists i. split; [reflexivity|].
    apply valid_month_label. eauto.
  - intros (i & -> & Hi).
    apply valid_month_label in Hi as (label & E). rewrite E.
    assert (Hin : In label (map fst m)).
    { rewrite Hk. eapply nth_error_In; eassumption. }
    apply map_get_keys in Hin.
    destruct (map_get label m); [discriminate | congruence].
Qed.

Lemma months_forEach_defined (l : list DashboardTransaction) :
  forall m, months_ok m ->
            (months_forEach m l <> None <-> Forall valid_month l).
Proof.
  induction l as [|t l IH]; intros m Hok; cbn [months_forEach].
  - split; [constructor | discriminate].
  - pose proof (month_step_defined m t Hok) as Hs.
    destruct (month_step m t) as [m1|] eqn:Es.
    + pose proof (month_step_ok m m1 t Hok Es) as Hok1.
      rewrite (IH m1 Hok1). split.
      * intros H. constructor; [apply Hs; discriminate | assumption].
      * intros H. now inversion H.
    + split; [congruence|]. intros H. inversion H; subst.
      now apply Hs.
Qed.

(** X20. [monthlyData] is built exactly when every transaction's date
    gives a month; a single transaction with an invalid date makes it
    throw. *)
Theorem monthlyData_defined (transactions : list DashboardTransaction) :
  (exists rows, monthlyData transactions = Some rows)
  <-> Forall valid_month transactions.
Proof.
  rewrite <- (months_forEach_defined transactions months_init
                months_init_ok).
  unfold monthlyData.
  destruct (months_forEach months_init transactions) as [m|]; simpl.
  - split; [discriminate | eauto].
  - split; [intros (rows & H); discriminate | congruence].
Qed.

Lemma category_step_keys (acc : StringMap number)
  (t : DashboardTransaction) :
  NoDup (map fst acc) ->
  NoDup (map fst (category_step acc t))
  /\ forall c, In c (map fst (category_step acc t))
               <-> In c (map fst acc) \/ c = dash_category t.
Proof.
  intros Hd. unfold category_step.
  destruct (map_get (dash_category t) acc) as [v|] eqn:E.
  - rewrite (map_set_known_keys _ _ v _ E). split; [assumption|].
    intros c. split; [auto|]. intros [H | ->]; [assumption|].
    apply map_get_keys. congruence.
  - rewrite (map_set_new _ _ _ E), map_app. simpl.
    assert (Hnin : ~ In (dash_category t) (map fst acc)).
    { intros H. apply map_get_keys in H. congruence. }
    split.
    + apply NoDup_app_remove_l with (l := []). simpl.
      apply Permutation_NoDup with (l := dash_category t :: map fst acc).
      * apply Permutation_cons_append.
      * now constructor.
    + intros c. rewrite in_app_iff. simpl. intuition congruence.
Qed.

Lemma category_fold_keys (l : list DashboardTransaction) :
  forall acc,
    NoDup (map fst acc) ->
    NoDup (map fst (fold_left category_step l acc))
    /\ forall c, In c (map fst (fold_left category_step l acc))
                 <-> In c (map fst acc)
                     \/ exists t, In t l /\ dash_category t = c.
Proof.
  induction l as [|t l IH]; intros acc Hd; cbn [fold_left].
  - split; [assumption|]. intros c. split; [auto|].
    intros [H | (t & [] & _)]. assumption.
  - destruct (category_step_keys acc t Hd) as [Hd1 Hk1].
    destruct (IH _ Hd1) as [Hd2 Hk2]. split; [assumption|].
    intros c. rewrite Hk2, Hk1. split.
    + intros [[H | ->] | (u & Hu & Ec)]; eauto.
      * right. exists t. split; [now left | reflexivity].
      * right. exists u. split; [now right | assumption].
    + intros [H | (u & [<- | Hu] & Ec)]; eauto.
Qed.

(** X21. The expense chart has one entry per category: no category
    comes twice, and a category has an entry exactly when some expense
    carries it. *)
Theorem expenseCategoryData_keys (transactions : list DashboardTransaction) :
  NoDup (map fst (expenseCategoryData transactions))
  /\ forall c,
       In c (map fst (expenseCategoryData transactions))
       <-> exists t, In t transactions /\ dash_type t = expense
                     /\ dash_category t = c.
Proof.
  unfold expenseCategoryData.
  destruct (category_fold_keys (filter is_expense transactions) []
              (NoDup_nil _)) as [Hd Hk].
  split; [assumption|]. intros c. rewrite Hk. split.
  - intros [[] | (t & Ht & Ec)]. apply filter_In in Ht as [Hin He].
    exists t. repeat split; try assumption.
    unfold is_expense in He. now destruct (dash_type t).
  - intros (t & Hin & He & Ec). right. exists t. split; [|assumption].
    apply filter_In. split; [assumption|]. unfold is_expense.
    now rewrite He.
Qed.

Lemma sum_numbers_finite (l : list number) :
  Forall (fun a => isFinite a = true) l -> exists x, sum_numbers l = Fin x.
Proof.
  unfold sum_numbers, zero. generalize 0 as s.
  induction l as [|a l IH]; intros s Hl; cbn [fold_left]; [eauto|].
  inversion Hl as [|? ? Ha Hl']; subst.
  destruct a as [a| | |]; try discriminate. cbn [add]. now apply IH.
Qed.

Lemma category_sum_finite (c : string) (l : list DashboardTransaction) :
  Forall (fun t => dash_type t = expense ->
                   isFinite (dash_amount t) = true) l ->
  exists x, category_sum c l = Fin x.
Proof.
  intros H. apply sum_numbers_finite.
  apply Forall_forall. intros a Ha.
  apply in_map_iff in Ha as (t & <- & Ht).
  apply filter_In in Ht as [Hin He]. apply andb_true_iff in He as [He _].
  apply (proj1 (Forall_forall _ _) H t Hin).
  unfold is_expense in He. now destruct (dash_type t).
Qed.

Lemma category_sum_snoc (c : string) (l : list DashboardTransaction)
  (t : DashboardTransaction) :
  category_sum c (l ++ [t]) =
  if is_expense t && String.eqb (dash_category t) c
  then add (category_sum c l) (dash_amount t)
  else category_sum c l.
Proof.
  unfold category_sum. rewrite filter_app. cbn [filter].
  destruct (is_expense t && String.eqb (dash_category t) c).
  - rewrite map_app. cbn [map]. apply sum_numbers_snoc.
  - now rewrite app_nil_r.
Qed.

Lemma category_sum_none (c : string) (l : list DashboardTransaction) :
  existsb (fun t => is_expense t && String.eqb (dash_category t) c) l
  = false ->
  category_sum c l = zero.
Proof.
  intros H. unfold category_sum.
  replace (filter _ l) with (@nil DashboardTransaction); [reflexivity|].
  symmetry. induction l as [|t l IH]; [reflexivity|].
  cbn [existsb filter] in *. apply orb_false_iff in H as [-> H].
  now apply IH.
Qed.

(** What the reduced object holds for category [c] after the
    transactions [l]: nothing before the first expense of that category,
    and then the sum of the amounts of its expenses. *)
Lemma category_fold_get (l : list DashboardTransaction) (c : string) :
  Forall (fun t => dash_type t = expense ->
                   isFinite (dash_amount t) = true) l ->
  map_get c (fold_left category_step (filter is_expense l) []) =
  if existsb (fun t => is_expense t && String.eqb (dash_category t) c) l
  then Some (category_sum c l)
  else None.
Proof.
  induction l as [|t l IH] using rev_ind; intros Hfin; [reflexivity|].
  apply Forall_app in Hfin as [Hl Ht].
  rewrite filter_app, fold_left_app, existsb_app, category_sum_snoc.
  cbn [filter existsb]. rewrite orb_false_r.
  destruct (is_expense t) eqn:Ee; cbn [fold_left andb].
  - unfold category_step at 1. rewrite map_get_set.
    destruct (String.eqb (dash_category t) c) eqn:Ec.
    + apply String.eqb_eq in Ec. subst c. rewrite orb_true_r.
      rewrite (IH Hl).
      destruct (existsb _ l) eqn:Ex.
      * destruct (category_sum_finite (dash_category t) l Hl) as [x ->].
        cbn [prop_or_zero]. now rewrite or_zero_Fin.
      * now rewrite (category_sum_none _ _ Ex).
    + rewrite orb_false_r. now apply IH.
  - rewrite orb_false_r. now apply IH.
Qed.

(** X22. When the amounts of the expenses are finite, the expense chart
    holds, for each category that has an expense, the amounts of the
    expenses of that category added up from 0 in the order of the
    transactions. *)
Theorem expenseCategoryData_values
  (transactions : list DashboardTransaction) (c : string) (v : number) :
  Forall (fun t => dash_type t = expense ->
                   isFinite (dash_amount t) = true) transactions ->
  In (c, v) (expenseCategoryData transactions)
  <-> (exists t, In t transactions /\ dash_type t = expense
                 /\ dash_category t = c)
      /\ v = category_sum c transactions.
Proof.
  intros Hfin.
  pose proof (category_fold_get transactions c Hfin) as Hget.
  fold (expenseCategoryData transactions) in Hget.
  assert (Hex : existsb (fun t => is_expense t
                                  && String.eqb (dash_category t) c)
                        transactions = true
                <-> exists t, In t transactions /\ dash_type t = expense
                              /\ dash_category t = c).
  { rewrite existsb_exists. split.
    - intros (t & Hin & H). apply andb_true_iff in H as [He Hc].
      exists t. split; [assumption|]. split.
      + unfold is_expense in He. now destruct (dash_type t).
      + now apply String.eqb_eq.
    - intros (t & Hin & He & Hc). exists t. split; [assumption|].
      unfold is_expense. rewrite He. now apply String.eqb_eq. }
  split.
  - intros Hin.
    assert (Hd : NoDup (map fst (expenseCategoryData transactions)))
      by apply (category_fold_keys _ [] (NoDup_nil _)).
    rewrite (map_get_unique c v _ Hd Hin) in Hget.
    destruct (existsb _ transactions) eqn:Ex; [|discriminate].
    split; [now apply Hex | congruence].
  - intros [He ->]. apply Hex in He. rewrite He in Hget.
    now apply map_get_In.
Qed.

Lemma breakdown_entries_witness :
  In (entry_of (taxableIncome
                  (calculateProgressiveTax
                     (plain_input 15000 two_brackets)))
               (bracket 10000 None 20))
     (breakdown (calculateProgressiveTax (plain_input 15000 two_brackets))).
Proof.
  apply (proj2 (breakdown_entries (plain_input 15000 two_brackets) _)).
  exists (bracket 10000 None 20).
  split; [right; left; reflexivity|]. split; reflexivity.
Defined.

Lemma monthlyData_defined_witness :
  exists rows, monthlyData example_transactions = Some rows.
Proof.
  apply (proj2 (monthlyData_defined example_transactions)).
  repeat constructor; eexists; (split; [reflexivity | lia]).
Defined.

Lemma expenseCategoryData_keys_witness :
  In "travel"%string (map fst (expenseCategoryData example_transactions)).
Proof.
  apply (proj2 (proj2 (expenseCategoryData_keys example_transactions) _)).
  exists (mkDashboardTransaction (of_Z 4) expense "travel" (Some 3%nat)).
  split; [right; left; reflexivity|]. split; reflexivity.
Defined.

Lemma expenseCategoryData_values_witness :
  In ("travel"%string, category_sum "travel" example_transactions)
     (expenseCategoryData example_transactions).
Proof.
  apply (proj2 (expenseCategoryData_values example_transactions
                  "travel" (category_sum "travel" example_transactions)
                  ltac:(repeat constructor))).
  split; [|reflexivity].
  exists (mkDashboardTransaction (of_Z 4) expense "travel" (Some 3%nat)).
  split; [right; left; reflexivity|]. split; reflexivity.
Defined.

(** ** The transactions page *)

Lemma filtered_total_snoc (keep : Transaction -> bool)
  (l : list Transaction) (t : Transaction) :
  sum_numbers (map amount (filter keep (l ++ [t]))) =
  if keep t
  then add (sum_numbers (map amount (filter keep l))) (amount t)
  else sum_numbers (map amount (filter keep l)).
Proof.
  rewrite filter_app. cbn [filter]. destruct (keep t).
  - rewrite map_app. cbn [map]. apply sum_numbers_snoc.
  - now rewrite app_nil_r.
Qed.

(** X23. The three totals of the transactions page are 0 without
    transactions, and one more transaction adds its amount to the total
    of its type, to the tax-deductible total as well when it is a
    deductible expense, and to no other total. *)
Theorem totals_by_transaction (transactions : list Transaction)
  (t : Transaction) :
  (totalIncome [] = zero /\ totalExpenses [] = zero
   /\ taxDeductibleExpenses [] = zero)
  /\ totalIncome (transactions ++ [t]) =
       (if type_is_income t
        then add (totalIncome transactions) (amount t)
        else totalIncome transactions)
  /\ totalExpenses (transactions ++ [t]) =
       (if type_is_expense t
        then add (totalExpenses transactions) (amount t)
        else totalExpenses transactions)
  /\ taxDeductibleExpenses (transactions ++ [t]) =
       (if type_is_expense t && is_tax_deductible t
        then add (taxDeductibleExpenses transactions) (amount t)
        else taxDeductibleExpenses transactions).
Proof.
  unfold totalIncome, totalExpenses, taxDeductibleExpenses.
  split; [repeat split|]. repeat split; apply filtered_total_snoc.
Qed.

Lemma expenses_fold_bounds (l : list Transaction) :
  Forall (fun t => type t = expense ->
                   exists a, amount t = Fin a /\ 0 <= a) l ->
  forall d e, 0 <= d -> d <= e ->
  exists d' e',
    fold_left add
      (map amount
         (filter (fun t => type_is_expense t && is_tax_deductible t) l))
      (Fin d) = Fin d'
    /\ fold_left add (map amount (filter type_is_expense l)) (Fin e)
       = Fin e'
    /\ 0 <= d' /\ d' <= e'.
Proof.
  induction 1 as [|t l Ht _ IH]; intros d e Hd Hde;
    cbn [filter map fold_left].
  - exists d, e. auto.
  - unfold type_is_expense in *. destruct (type t) eqn:Et;
      cbn [andb map fold_left].
    + now apply IH.
    + destruct (Ht eq_refl) as (a & Ea & Ha).
      destruct (is_tax_deductible t); cbn [map fold_left];
        rewrite Ea; cbn [add]; apply IH; qc_lra.
Qed.

(** X24. When the amounts of the expenses are finite and not negative,
    the tax-deductible total is finite, not negative and at most the
    total of the expenses. *)
Theorem deductible_within_expenses (transactions : list Transaction) :
  Forall (fun t => type t = expense ->
                   exists a, amount t = Fin a /\ 0 <= a) transactions ->
  ge (taxDeductibleExpenses transactions) zero = true
  /\ le (taxDeductibleExpenses transactions) (totalExpenses transactions)
     = true.
Proof.
  intros H.
  destruct (expenses_fold_bounds transactions H 0 0 (Qcle_refl 0)
              (Qcle_refl 0)) as (d & e & Ed & Ee & Hd & Hde).
  unfold taxDeductibleExpenses, totalExpenses, sum_numbers, zero.
  rewrite Ed, Ee. unfold ge. simpl. split; qc_lra.
Qed.

Lemma deductible_within_expenses_witness :
  let txs :=
    [mkTransaction "a" (of_Z 40) "train" "travel" expense "2024-03-01" true;
     mkTransaction "b" (of_Z 60) "laptop" "equipment" expense "2024-03-02"
                   false;
     mkTransaction "c" NaN "job" "freelance_income" income "2024-03-03"
                   false] in
  ge (taxDeductibleExpenses txs) zero = true
  /\ le (taxDeductibleExpenses txs) (totalExpenses txs) = true.
Proof.
  apply deductible_within_expenses.
  repeat constructor; intros H; try discriminate;
    eexists; (split; [reflexivity|]); apply Qcleb_le; reflexivity.
Defined.

Section CsvImportFacts.
Variable parseFloat : string -> number.
Variable toLowerCase : string -> string.
Variable isoDate : string -> option string.
Variable user_id : option string.
Variable insert_error : list ImportedRow -> bool.

Lemma nonempty_true (s : string) : nonempty s = true <-> s <> ""%string.
Proof.
  unfold nonempty. rewrite negb_true_iff. apply String.eqb_neq.
Qed.

Lemma mapRow_accepted (row : CsvRow) (r : ImportedRow) :
  mapRow parseFloat toLowerCase isoDate user_id row = Accepted r ->
  row_valid r /\ row_rejected parseFloat toLowerCase row = false.
Proof.
  unfold mapRow. cbv zeta.
  destruct (row_rejected parseFloat toLowerCase row) eqn:E;
    [discriminate|].
  destruct (isoDate _); [|discriminate].
  intros H. injection H as <-. split; [|reflexivity].
  unfold row_rejected in E. cbv zeta in E.
  apply orb_false_iff in E as [E Ht].
  apply orb_false_iff in E as [E Hdate].
  apply orb_false_iff in E as [Ha Hd].
  apply negb_false_iff in Ha, Hd.
  unfold row_valid. cbn [imported_amount imported_description
                         imported_type imported_category].
  split; [exact Ha|]. split; [now apply nonempty_true|]. split.
  - apply andb_false_iff in Ht as [Ht | Ht]; apply negb_false_iff in Ht;
      apply String.eqb_eq in Ht; auto.
  - destruct (nonempty (toLowerCase _)) eqn:Ec.
    + now apply nonempty_true.
    + discriminate.
Qed.

Lemma map_rows_valid (rows : list CsvRow) :
  forall results,
    map_rows parseFloat toLowerCase isoDate user_id rows = Some results ->
    Forall row_valid (filter_Boolean results)
    /\ (List.length (filter_Boolean results) <= List.length rows)%nat.
Proof.
  induction rows as [|row rows IH]; intros results H; cbn [map_rows] in H.
  - injection H as <-. split; [constructor | apply le_n].
  - destruct (mapRow parseFloat toLowerCase isoDate user_id row)
      as [|r|] eqn:E; [| |discriminate];
      destruct (map_rows parseFloat toLowerCase isoDate user_id rows)
        as [res|]; try discriminate;
      injection H as <-; destruct (IH res eq_refl) as [Hv Hl];
      cbn [filter_Boolean List.length].
    + split; [assumption | lia].
    + split; [|lia]. constructor; [|assumption].
      now apply (mapRow_accepted row r).
Qed.

(** X25. The rows an import inserts are never none, never more than the
    file has, and each has an amount other than 0 and [NaN], a
    description, the type [income] or [expense] and a category. *)
Theorem imported_rows_valid (rows : list CsvRow) (l : list ImportedRow) :
  handleCsvImport parseFloat toLowerCase isoDate user_id insert_error rows
  = Imported l ->
  l <> [] /\ (List.length l <= List.length rows)%nat
  /\ Forall row_valid l.
Proof.
  unfold handleCsvImport.
  destruct (map_rows parseFloat toLowerCase isoDate user_id rows)
    as [results|] eqn:E; [|discriminate].
  destruct (map_rows_valid rows results E) as [Hv Hl].
  destruct (filter_Boolean results) as [|r l'] eqn:Ef; [discriminate|].
  destruct (insert_error (r :: l')); [discriminate|].
  intros H. injection H as <-. split; [discriminate|]. auto.
Qed.

Lemma map_rows_throws (rows : list CsvRow) (row : CsvRow) :
  In row rows -> row_rejected parseFloat toLowerCase row = false ->
  isoDate (row_date row) = None ->
  map_rows parseFloat toLowerCase isoDate user_id rows = None.
Proof.
  intros Hin Hr Hd.
  induction rows as [|row' rows IH]; [destruct Hin|].
  cbn [map_rows].
  destruct Hin as [-> | Hin].
  - unfold mapRow. cbv zeta. rewrite Hr.
    change (nullish_string (csv_transaction_date row)
              (nullish_string (csv_date row)
                 (nullish_string (csv_Date row) "")))
      with (row_date row).
    now rewrite Hd.
  - rewrite (IH Hin).
    destruct (mapRow parseFloat toLowerCase isoDate user_id row');
      reflexivity.
Qed.

(** X26. One row that passes the checks but whose date does not convert
    makes the whole import fail, whatever the other rows; the date of a
    row that fails the checks is never converted, so a file of nothing
    but such rows only reports that it has no valid rows. *)
Theorem bad_date_fails_import (rows : list CsvRow) :
  (forall row,
      In row rows -> row_rejected parseFloat toLowerCase row = false ->
      isoDate (row_date row) = None ->
      handleCsvImport parseFloat toLowerCase isoDate user_id insert_error
                      rows = ImportFailed)
  /\ (Forall (fun row => row_rejected parseFloat toLowerCase row = true)
             rows ->
      handleCsvImport parseFloat toLowerCase isoDate user_id insert_error
                      rows = NoValidRows).
Proof.
  split.
  - intros row Hin Hr Hd. unfold handleCsvImport.
    pose proof (map_rows_throws rows row Hin Hr Hd) as H.
    now rewrite H.
  - intros Hall. unfold handleCsvImport.
    assert (H : exists results,
               map_rows parseFloat toLowerCase isoDate user_id rows
               = Some results /\ filter_Boolean results = []).
    { induction Hall as [|row rows Hr _ (res & E & Ef)].
      - exists []. split; reflexivity.
      - exists (None :: res). cbn [map_rows]. unfold mapRow at 1.
        cbv zeta. rewrite Hr, E. split; [reflexivity | exact Ef]. }
    destruct H as (res & -> & ->). reflexivity.
Qed.

Lemma map_rows_drop_rejected (rows : list CsvRow) :
  option_map filter_Boolean
    (map_rows parseFloat toLowerCase isoDate user_id
       (filter (fun row => negb (row_rejected parseFloat toLowerCase row))
               rows))
  = option_map filter_Boolean
      (map_rows parseFloat toLowerCase isoDate user_id rows).
Proof.
  induction rows as [|row rows IH]; [reflexivity|].
  cbn [filter map_rows].
  destruct (row_rejected parseFloat toLowerCase row) eqn:Er; cbn [negb].
  - unfold mapRow at 1. cbv zeta. rewrite Er. rewrite IH.
    destruct (map_rows parseFloat toLowerCase isoDate user_id rows);
      reflexivity.
  - cbn [map_rows].
    destruct (mapRow parseFloat toLowerCase isoDate user_id row);
      try reflexivity;
      destruct (map_rows parseFloat toLowerCase isoDate user_id
                  (filter _ rows)),
               (map_rows parseFloat toLowerCase isoDate user_id rows);
      simpl in *; congruence.
Qed.

(** X27. Rows that fail the checks do not count: deleting them from the
    file leaves the outcome of the import unchanged. *)
Theorem rejected_rows_ignored (rows : list CsvRow) :
  handleCsvImport parseFloat toLowerCase isoDate user_id insert_error
    (filter (fun row => negb (row_rejected parseFloat toLowerCase row)) rows)
  = handleCsvImport parseFloat toLowerCase isoDate user_id insert_error
      rows.
Proof.
  unfold handleCsvImport.
  pose proof (map_rows_drop_rejected rows) as H.
  destruct (map_rows parseFloat toLowerCase isoDate user_id
              (filter _ rows)),
           (map_rows parseFloat toLowerCase isoDate user_id rows);
    simpl in H; try discriminate; [|reflexivity].
  injection H as ->. reflexivity.
Qed.

End CsvImportFacts.

Lemma imported_rows_valid_witness :
  exists l,
    handleCsvImport example_parseFloat (fun s => s) example_isoDate None
                    (fun _ => false) [example_row "2024-01-02"]
    = Imported l
    /\ l <> [] /\ (List.length l <= 1)%nat /\ Forall row_valid l.
Proof.
  eexists. split; [reflexivity|].
  apply (imported_rows_valid example_parseFloat (fun s => s)
           example_isoDate None (fun _ => false)
           [example_row "2024-01-02"]).
  reflexivity.
Defined.

Lemma bad_date_fails_import_witness :
  handleCsvImport example_parseFloat (fun s => s) example_isoDate None
                  (fun _ => false)
                  [example_row "2024-01-02"; example_row "someday"]
  = ImportFailed
  /\ handleCsvImport example_parseFloat (fun s => s) example_isoDate None
                     (fun _ => false) [example_row ""]
     = NoValidRows.
Proof.
  split.
  - apply (proj1 (bad_date_fails_import example_parseFloat (fun s => s)
                    example_isoDate None (fun _ => false)
                    [example_row "2024-01-02"; example_row "someday"])
             (example_row "someday")).
    + right. left. reflexivity.
    + reflexivity.
    + reflexivity.
  - apply (proj2 (bad_date_fails_import example_parseFloat (fun s => s)
                    example_isoDate None (fun _ => false)
                    [example_row ""])).
    repeat constructor.
Defined.
